(** * novis: a path-prefix reverse-proxy gateway

    A shallow embedding of [novis.go] and [utils.go]: the service registry,
    its snapshot in the key-value store, the health check, the discovery
    handler and the router, followed by the properties proved about them.

    Conventions of the embedding.
    - [n.services] is a Go map from string to [*Service]; it is a
      [gmap string Service], each entry being the record its pointer
      leads to.  The package allocates a fresh record for every service
      it registers itself (configuration, snapshot, discovery); for a
      pointer handed to [AddService] the embedding takes it that the
      caller registers it once and leaves the record alone afterwards,
      so that no two keys share a record.
    - The run is sequential.  Locks ([mux]) order concurrent accesses
      and have no effect on a sequential run; the getters and setters
      are the field accesses they wrap.  A service remembers whether it
      owns a lock.
    - Go's [range] over a map visits every key once, in an order that the
      language leaves open and that may change from one loop to the next.
      Each loop therefore receives the order of its visit as an argument,
      and the theorems hold for every order.
    - What the outside world decides (whether the store executes a
      command, whether a TCP connection is established) is an input.
    - What the code does to the outside world (responses, forwarded
      requests, connection attempts, store commands, log lines) is
      returned as a list of events, oldest first.
    - Library functions whose code is not in the package ([strings.ToLower],
      [url.Parse], [encoding/json]) are parameters; the byte-level
      functions of [strings] are written out. *)

From Stdlib Require Import String Ascii ZArith Lia.
From stdpp Require Import gmap strings list fin_maps.

Local Open Scope string_scope.
Local Open Scope list_scope.

(** ** Go values *)

(** Go's [error] values: [nil] is [None]. [redis.Nil] is a sentinel that
    the code compares by identity. *)
Inductive goerror :=
| redis_Nil
| errors_New (msg : string).

Definition error := option goerror.

(** A Go result pair [(v, err)] of which exactly one side is used. *)
Inductive result (A : Type) :=
| Val (a : A)
| Err (e : goerror).
Arguments Val {A} a.
Arguments Err {A} e.

(** A run either completes or panics. *)
Inductive outcome (A : Type) :=
| Done (a : A)
| Panic (msg : string).
Arguments Done {A} a.
Arguments Panic {A} msg.

Definition nil_dereference : string :=
  "invalid memory address or nil pointer dereference".

(** ** The functions of package [strings] that the code calls *)

Module GoStrings.

(** [strings.HasPrefix(s, prefix)] *)
Definition HasPrefix (s prefix : string) : bool := String.prefix prefix s.

Fixpoint inCutset (c : ascii) (cutset : string) : bool :=
  match cutset with
  | EmptyString => false
  | String d rest => Ascii.eqb c d || inCutset c rest
  end.

Fixpoint TrimLeft (s cutset : string) : string :=
  match s with
  | EmptyString => EmptyString
  | String c rest => if inCutset c cutset then TrimLeft rest cutset else s
  end.

Fixpoint TrimRight (s cutset : string) : string :=
  match s with
  | EmptyString => EmptyString
  | String c rest =>
      match TrimRight rest cutset with
      | EmptyString => if inCutset c cutset then EmptyString else String c EmptyString
      | kept => String c kept
      end
  end.

(** [strings.Trim(s, cutset)] for a cutset of ASCII bytes. *)
Definition Trim (s cutset : string) : string :=
  TrimRight (TrimLeft s cutset) cutset.

Definition consHead (c : ascii) (fields : list string) : list string :=
  match fields with
  | [] => [String c EmptyString]
  | f :: fs => String c f :: fs
  end.

(** The scan of [strings.Split]: [skip] counts the bytes of a separator
    that was just matched and are still to be passed over. *)
Fixpoint splitScan (sep : string) (skip : nat) (s : string) : list string :=
  match s with
  | EmptyString => [EmptyString]
  | String c rest =>
      match skip with
      | S k => splitScan sep k rest
      | O =>
          if String.prefix sep s
          then EmptyString :: splitScan sep (String.length sep - 1) rest
          else consHead c (splitScan sep 0 rest)
      end
  end.

(** [strings.Split(s, sep)] for a non-empty separator. *)
Definition Split (s sep : string) : list string := splitScan sep 0 s.

Fixpoint dropBytes (k : nat) (s : string) : string :=
  match k, s with
  | S k', String _ rest => dropBytes k' rest
  | _, _ => s
  end.

(** [strings.Replace(s, old, new, 1)]: the first occurrence of [old]. *)
Fixpoint Replace1 (s old new : string) : string :=
  if String.prefix old s
  then new ++ dropBytes (String.length old) s
  else match s with
       | EmptyString => EmptyString
       | String c rest => String c (Replace1 rest old new)
       end.

(** [strings.ToLower] on ASCII text, where it changes the bytes A to Z
    only. *)
Definition lowerByte (c : ascii) : ascii :=
  let k := nat_of_ascii c in
  if (65 <=? k)%nat && (k <=? 90)%nat then ascii_of_nat (k + 32) else c.

Fixpoint asciiToLower (s : string) : string :=
  match s with
  | EmptyString => EmptyString
  | String c rest => String (lowerByte c) (asciiToLower rest)
  end.

End GoStrings.
Import GoStrings.

(** [utils.go], removeEmptyStr *)
Fixpoint removeEmptyStr (l : list string) : list string :=
  match l with
  | [] => []
  | s :: rest =>
      if (0 <? String.length s)%nat
      then s :: removeEmptyStr rest
      else removeEmptyStr rest
  end.

(** ** Data model *)

(** [type ServiceStatus string]: any string is a value of the type; the
    package names four of them. *)
Definition ServiceStatus := string.
Definition UP : ServiceStatus := "UP".
Definition DOWN : ServiceStatus := "DOWN".
Definition PAUSE : ServiceStatus := "PAUSE".
Definition CHECKING : ServiceStatus := "CHECKING".

Definition svcKey : string := "_NOVIS_SVCS_".

(** [net/http] status codes. *)
Definition StatusOK : Z := 200.
Definition StatusBadRequest : Z := 400.
Definition StatusNotFound : Z := 404.
Definition StatusMethodNotAllowed : Z := 405.
Definition StatusBadGateway : Z := 502.

(** [time.Duration] counts nanoseconds. *)
Definition Second : Z := 1000000000.

(** The part of [url.URL] that the package reads. *)
Record URL := { URL_Host : string }.

(** [httputil.NewSingleHostReverseProxy(target)] *)
Record ReverseProxy := { target : URL }.
Definition NewSingleHostReverseProxy (u : URL) : ReverseProxy := {| target := u |}.

Record Service := {
  Host : string;
  Path : string;
  Status : ServiceStatus;
  HealthCheckURL : string;
  reverseProxy : option ReverseProxy;   (* nil is None *)
  mux : bool                            (* whether the lock is allocated *)
}.

Definition SetStatus (s : Service) (status : ServiceStatus) : Service :=
  {| Host := Host s; Path := Path s; Status := status;
     HealthCheckURL := HealthCheckURL s;
     reverseProxy := reverseProxy s; mux := mux s |}.

Definition SetReverseProxy (s : Service) (rp : ReverseProxy) : Service :=
  {| Host := Host s; Path := Path s; Status := Status s;
     HealthCheckURL := HealthCheckURL s;
     reverseProxy := Some rp; mux := mux s |}.

Definition setMux (s : Service) : Service :=
  {| Host := Host s; Path := Path s; Status := Status s;
     HealthCheckURL := HealthCheckURL s;
     reverseProxy := reverseProxy s; mux := true |}.

(** What [encoding/json] sees of a service: the four tagged fields. *)
Definition exported (s : Service) : Service :=
  {| Host := Host s; Path := Path s; Status := Status s;
     HealthCheckURL := HealthCheckURL s;
     reverseProxy := None; mux := false |}.

Record ProxyOptions := {
  Timeout : Z;
  DiscoveryURL : string
}.

(** The store: its contents, and for each of the commands it will receive
    next whether it fails ([Some e]) or executes ([None]); once the list
    is used up every command executes. *)
Record Redis := {
  kv : gmap string string;
  faults : list error
}.

Record Novis := {
  services : gmap string Service;
  storage : Redis;
  opts : ProxyOptions
}.

Definition set_services (m : gmap string Service) (n : Novis) : Novis :=
  {| services := m; storage := storage n; opts := opts n |}.

Definition set_storage (r : Redis) (n : Novis) : Novis :=
  {| services := services n; storage := r; opts := opts n |}.

Record Request := {
  Method : string;
  URL_Path : string;       (* req.URL.Path *)
  RequestURI : string;
  Req_Host : string;       (* req.Host *)
  Body : string
}.

(** The configuration file, as [yaml.Unmarshal] fills it in. *)
Record Configuration := {
  Port : Z;
  Server_Timeout : Z;
  Server_Discovery_Path : string;
  Server_Services : list Service
}.

Inductive event :=
| Respond (status : Z) (msg : string)
| ServeHTTP (rp : ReverseProxy) (req : Request)
| DialTimeout (network address : string) (timeout : Z)
| RedisGet (key : string)
| RedisSet (key value : string)
| LogWarn (e : goerror).

(** ** The store *)

Definition nextFault (r : Redis) : error * Redis :=
  match faults r with
  | [] => (None, r)
  | f :: later => (f, {| kv := kv r; faults := later |})
  end.

(** [client.Get(ctx, key).Result()] *)
Definition redis_Get (key : string) (r : Redis) : Redis * result string :=
  let '(f, r') := nextFault r in
  match f with
  | Some e => (r', Err e)
  | None =>
      match kv r' !! key with
      | Some v => (r', Val v)
      | None => (r', Err redis_Nil)
      end
  end.

(** [client.Set(ctx, key, value, 0).Err()] *)
Definition redis_Set (key value : string) (r : Redis) : Redis * error :=
  let '(f, r') := nextFault r in
  match f with
  | Some e => (r', Some e)
  | None => ({| kv := <[key := value]> (kv r'); faults := faults r' |}, None)
  end.

(** ** Iteration over a Go map *)

(** The entries that [range m] yields when it visits the keys in [order]. *)
Definition go_range {V : Type} (order : list string) (m : gmap string V)
  : list (string * V) :=
  omap (fun k => (fun v => (k, v)) <$> m !! k) order.

(** [order] is a way in which [range m] may visit the keys of [m]. *)
Definition range_order {V : Type} (m : gmap string V) (order : list string) : Prop :=
  order ≡ₚ (map_to_list m).*1.

(** ** Machine integers *)

(** Go's [int] on a 64-bit platform: two's complement on 64 bits. *)
Definition wrap64 (z : Z) : Z := ((z + 2 ^ 63) mod 2 ^ 64 - 2 ^ 63)%Z.

Definition inInt (z : Z) : Prop := (- 2 ^ 63 <= z < 2 ^ 63)%Z.

(** [rand.Intn(n)]: it panics unless [n] is positive; [draw] is the
    number the generator is about to produce, reduced into the range. *)
Definition rand_Intn (draw : Z) (n : Z) : outcome Z :=
  if (n <=? 0)%Z then Panic "invalid argument to Intn"
  else Done (draw mod n)%Z.

(** [utils.go], randomIntegerInRange - Generate integer between min and
    max *)
Definition randomIntegerInRange (draw : Z) (min max : Z) : outcome Z :=
  match rand_Intn draw (wrap64 (max - min)) with
  | Done r => Done (wrap64 (min + r))
  | Panic msg => Panic msg
  end.

(** ** The gateway *)

(** Library functions the package calls and whose code is not part of
    it. *)
Class Library := {
  ToLower : string -> string;                               (* strings.ToLower *)
  url_Parse : string -> result URL;                         (* url.Parse *)
  json_Marshal : gmap string Service -> result string;      (* json.Marshal *)
  json_Unmarshal : string -> result (gmap string Service);  (* json.Unmarshal *)
  json_Decode : string -> result Service                    (* Decoder.Decode *)
}.

Section Gateway.

Context {lib : Library}.

(** UpdateStorage - update to redis store *)
Definition UpdateStorage (n : Novis) : Novis * list event * error :=
  match json_Marshal (services n) with
  | Err e => (n, [], Some e)
  | Val svcJSON =>
      let '(r, err) := redis_Set svcKey svcJSON (storage n) in
      (set_storage r n, [RedisSet svcKey svcJSON], err)
  end.

(** AddService - Add service to map *)
Definition AddService (n : Novis) (service : Service)
  : Novis * list event * error :=
  let p := Trim (Path service) "/" in
  if (0 <? String.length p)%nat then
    let n1 := set_services (<[ToLower p := service]> (services n)) n in
    let '(n2, evs, _) := UpdateStorage n1 in
    (n2, evs, None)
  else (n, [], None).

(** The receiver of [n.services[key].SetStatus(status)]: the entry at
    [key], or the nil pointer of an absent key, on which [SetStatus]
    reads [s.mux]. *)
Definition setStatusAt (n : Novis) (key : string) (status : ServiceStatus)
  : outcome Novis :=
  match services n !! key with
  | Some s => Done (set_services (<[key := SetStatus s status]> (services n)) n)
  | None => Panic nil_dereference
  end.

(** PauseService - Pause a service *)
Definition PauseService (n : Novis) (service : Service) : outcome Novis :=
  let p := Split (Path service) "/" in
  if (0 <? length p)%nat
  then setStatusAt n (ToLower (hd "" p)) PAUSE
  else Done n.

(** ResumeService - Resume a service *)
Definition ResumeService (n : Novis) (service : Service) : outcome Novis :=
  let p := Split (Path service) "/" in
  if (0 <? length p)%nat
  then setStatusAt n (ToLower (hd "" p)) CHECKING
  else Done n.

(** RemoveService - Remove service from map *)
Definition RemoveService (n : Novis) (service : Service)
  : Novis * list event * error :=
  let p := Split (Path service) "/" in
  if (0 <? length p)%nat then
    let lp := ToLower (hd "" p) in
    match services n !! lp with
    | Some _ => UpdateStorage (set_services (delete lp (services n)) n)
    | None => (n, [], None)
    end
  else (n, [], None).

(** The service that LoadFromStorage builds from a decoded one: the
    literal names four fields and leaves [Status] at its zero value. *)
Definition loadedService (v : Service) (proxy : ReverseProxy) : Service :=
  {| Path := Path v; Host := Host v;
     HealthCheckURL := HealthCheckURL v;
     reverseProxy := Some proxy; mux := true;
     Status := "" |}.

(** The loop of LoadFromStorage over the decoded services. *)
Fixpoint loadServices (vs : list (string * Service)) (n : Novis)
  : Novis * list event * error :=
  match vs with
  | [] => (n, [], None)
  | (_, v) :: later =>
      match url_Parse (Host v) with
      | Err e => (n, [], Some e)
      | Val sURL =>
          let proxy := NewSingleHostReverseProxy sURL in
          let '(n1, evs1, _) := AddService n (loadedService v proxy) in
          let '(n2, evs2, err) := loadServices later n1 in
          (n2, evs1 ++ evs2, err)
      end
  end.

(** LoadFromStorage - Load services from Storage *)
Definition LoadFromStorage (order : list string) (n : Novis)
  : Novis * list event * error :=
  let '(r, res) := redis_Get svcKey (storage n) in
  let n0 := set_storage r n in
  match res with
  | Err redis_Nil => (n0, [RedisGet svcKey], None)
  | Err e => (n0, [RedisGet svcKey], Some e)
  | Val text =>
      match json_Unmarshal text with
      | Err e => (n0, [RedisGet svcKey], Some e)
      | Val decoded =>
          let '(n1, evs, err) := loadServices (go_range order decoded) n0 in
          (n1, RedisGet svcKey :: evs, err)
      end
  end.

(** isServiceAlive - Check if a service is available to connect.
    [connected] tells whether [net.DialTimeout] establishes the
    connection within the timeout. *)
Definition isServiceAlive (connected : bool) (u : string)
  : ServiceStatus * list event :=
  let to := (3 * Second)%Z in
  (if connected then UP else DOWN, [DialTimeout "tcp" u to]).

(** The body of the loop of healthCheck for the service at [k]. *)
Definition healthCheckVisit (n : Novis) (k : string) (connected : bool)
  : Novis * list event :=
  match services n !! k with
  | None => (n, [])
  | Some s =>
      let currentStatus := Status s in
      if decide (currentStatus <> PAUSE) then
        let sHost := HealthCheckURL s in
        let '(status, dial) := isServiceAlive connected sHost in
        if decide (currentStatus <> status) then
          let n1 := set_services (<[k := SetStatus s status]> (services n)) n in
          let '(n2, evs, err) := UpdateStorage n1 in
          match err with
          | Some e => (n2, dial ++ evs ++ [LogWarn e])
          | None => (n2, dial ++ evs)
          end
        else (n, dial)
      else (n, [])
  end.

(** One tick of healthCheck: [for _, s := range n.services].  A visit
    is the key reached and the answer of the network to the probe made
    there, if one is made. *)
Fixpoint healthCheckTick (visits : list (string * bool)) (n : Novis)
  : Novis * list event :=
  match visits with
  | [] => (n, [])
  | (k, connected) :: later =>
      let '(n1, evs1) := healthCheckVisit n k connected in
      let '(n2, evs2) := healthCheckTick later n1 in
      (n2, evs1 ++ evs2)
  end.

(** healthCheck - Health check for services: the loop never returns;
    this is its run over the ticks delivered so far. *)
Fixpoint healthCheck (ticks : list (list (string * bool))) (n : Novis)
  : Novis * list event :=
  match ticks with
  | [] => (n, [])
  | visits :: later =>
      let '(n1, evs1) := healthCheckTick visits n in
      let '(n2, evs2) := healthCheck later n1 in
      (n2, evs1 ++ evs2)
  end.

(** discovery - Discovery service *)
Definition discovery (n : Novis) (req : Request)
  : Novis * list event * error :=
  let paths := removeEmptyStr (Split (URL_Path req) "/") in
  let continue (first : list event) : Novis * list event * error :=
    match json_Decode (Body req) with
    | Err e => (n, first ++ [Respond StatusBadRequest ""], Some e)
    | Val s =>
        if (String.length (HealthCheckURL s) =? 0)%nat then
          (n, first ++ [Respond StatusBadRequest "Health check url is not valid"],
           Some (errors_New "Discovery request health check url is not valid"))
        else
          let s := SetStatus (setMux s) CHECKING in
          match url_Parse (Host s) with
          | Err e => (n, first ++ [Respond StatusBadRequest ""], Some e)
          | Val sURL =>
              let proxy := NewSingleHostReverseProxy sURL in
              let s := SetReverseProxy s proxy in
              let '(n1, evs, _) := AddService n s in
              (n1, first ++ evs, None)
          end
    end in
  if negb (length paths =? 1)%nat then
    continue [Respond StatusNotFound ""]
  else if negb (String.eqb (ToLower (Method req)) "post") then
    (n, [Respond StatusMethodNotAllowed ""],
     Some (errors_New "Discovery request method not allowed"))
  else continue [].

(** findServiceInMap: [order] is the order of [range n.services]. *)
Fixpoint findServiceInMap (order : list string) (path : string) : string :=
  match order with
  | [] => ""
  | k :: later =>
      if HasPrefix (ToLower path) (ToLower k) then k
      else findServiceInMap later path
  end.

(** proxyRequest - Proxy request to service *)
Definition proxyRequest (order : list string) (n : Novis) (req : Request)
  : outcome (Novis * list event) :=
  let paths := Trim (URL_Path req) "/" in
  if (0 <? String.length paths)%nat then
    let sn := findServiceInMap order paths in
    if String.eqb paths (ToLower (DiscoveryURL (opts n))) then
      let '(n1, evs, _) := discovery n req in
      Done (n1, evs)
    else
      match services n !! sn with
      | Some s =>
          if decide (Status s <> UP) then
            Done (n, [Respond StatusNotFound ""])
          else
            match url_Parse (Host s) with
            | Err e => Done (n, [LogWarn e; Respond StatusBadGateway ""])
            | Val sURL =>
                let req' :=
                  {| Method := Method req;
                     URL_Path := Replace1 (URL_Path req) ("/" ++ Path s) "";
                     RequestURI := Replace1 (RequestURI req) ("/" ++ Path s) "";
                     Req_Host := URL_Host sURL;
                     Body := Body req |} in
                match reverseProxy s with
                | Some rp => Done (n, [ServeHTTP rp req'])
                | None => Panic nil_dereference
                end
            end
      | None => Done (n, [Respond StatusNotFound ""])
      end
  else Done (n, [Respond StatusOK ""]).

(** The loop of NewFromConfig that seeds the registry. *)
Fixpoint initialServices (l : list Service) (acc : gmap string Service)
  : result (gmap string Service) :=
  match l with
  | [] => Val acc
  | c :: later =>
      match url_Parse (Host c) with
      | Err e => Err e
      | Val sURL =>
          let proxy := NewSingleHostReverseProxy sURL in
          let p := Trim (Path c) "/" in
          initialServices later
            (<[p := {| Host := Host c; Path := Path c;
                       HealthCheckURL := HealthCheckURL c;
                       reverseProxy := Some proxy;
                       Status := CHECKING; mux := false |}]> acc)
      end
  end.

(** NewFromConfig - New Novis from Yaml config file, from the point
    where the file has been read and parsed into [yc]; [store] is the
    server that [redis.NewClient] connects to.  The timeout is a
    product of two [time.Duration] values, which are 64-bit integers. *)
Definition NewFromConfig (yc : Configuration) (store : Redis) (order : list string)
  : result (Novis * list event * error) :=
  match initialServices (Server_Services yc) ∅ with
  | Err e => Err e
  | Val seeded =>
      let nn := {| services := seeded; storage := store;
                   opts := {| Timeout := wrap64 (Server_Timeout yc * Second);
                              DiscoveryURL := Server_Discovery_Path yc |} |} in
      let '(n1, evs1, err) := LoadFromStorage order nn in
      let '(n2, evs2, _) := UpdateStorage n1 in
      Val (n2, evs1 ++ evs2, err)
  end.

(** New - Create a new proxy, for options that are given (not nil) and
    name the store; [emptyNovis] is the gateway before its first load. *)
Definition emptyNovis (o : ProxyOptions) (store : Redis) : Novis :=
  {| services := ∅; storage := store; opts := o |}.

Definition New (o : ProxyOptions) (store : Redis) (order : list string)
  : Novis * list event :=
  let n := emptyNovis o store in
  let '(n1, evs1, _) := LoadFromStorage order n in
  let '(n2, evs2, _) := UpdateStorage n1 in
  (n2, evs1 ++ evs2).

(** [utils.go], isPathInList - If a path is in list *)
Fixpoint isPathInList (l : list string) (d : string) : bool :=
  match l with
  | [] => false
  | p :: rest =>
      if HasPrefix (ToLower d) (ToLower p) then true
      else isPathInList rest d
  end.

(** GetAllServices - Get all available services *)
Definition GetAllServices (n : Novis) : gmap string Service := services n.

(** A registry in which every service sits under its own slash-trimmed,
    lower-cased path, and that path is not empty. *)
Definition keyedByPath (m : gmap string Service) : Prop :=
  forall k s, m !! k = Some s ->
    Trim (Path s) "/" <> "" /\ k = ToLower (Trim (Path s) "/").

(** [m'] has the keys of [m], and under each key the service of [m]
    with, at most, another status; a paused service is the same. *)
Definition statusOnly (m m' : gmap string Service) : Prop :=
  forall k,
    (m !! k = None /\ m' !! k = None) \/
    (exists s s', m !! k = Some s /\ m' !! k = Some s' /\
                  s' = SetStatus s (Status s') /\
                  (Status s = PAUSE -> s' = s)).

(** The two facts the calls keep: the keys agree with the paths, and the
    options are those the gateway was built with. *)
Definition kept (o : ProxyOptions) (n : Novis) : Prop :=
  keyedByPath (services n) /\ opts n = o.

(** One call of the package on a gateway: the calls its users and its own
    server and timer make once the gateway is built. *)
Inductive call (n : Novis) : Novis -> Prop :=
| call_AddService (service : Service) :
    call n (AddService n service).1.1
| call_RemoveService (service : Service) :
    call n (RemoveService n service).1.1
| call_PauseService (service : Service) (n' : Novis) :
    PauseService n service = Done n' -> call n n'
| call_ResumeService (service : Service) (n' : Novis) :
    ResumeService n service = Done n' -> call n n'
| call_UpdateStorage :
    call n (UpdateStorage n).1.1
| call_LoadFromStorage (order : list string) :
    call n (LoadFromStorage order n).1.1
| call_healthCheck (ticks : list (list (string * bool))) :
    call n (healthCheck ticks n).1
| call_proxyRequest (order : list string) (req : Request)
    (n' : Novis) (evs : list event) :
    proxyRequest order n req = Done (n', evs) -> call n n'.

End Gateway.

(** ** A stand-in for the libraries, to run the code on examples

    [tableParse] lists the values of [url.Parse] at the addresses the
    examples use: two upstream addresses, the empty address (which
    [url.Parse] accepts) and an address with an unclosed bracket (which
    it rejects).  No example relies on its answer elsewhere.  The codec writes a registry one service per field of
    a [;]-separated text, each as [key|host|path|status|healthCheckURL];
    like [encoding/json] it drops the unexported fields and reads back
    what it wrote. *)

Module Sample.

Definition tableParse (raw : string) : result URL :=
  if String.eqb raw "http://127.0.0.1:9001" then Val {| URL_Host := "127.0.0.1:9001" |}
  else if String.eqb raw "http://127.0.0.1:9002" then Val {| URL_Host := "127.0.0.1:9002" |}
  else if String.eqb raw "" then Val {| URL_Host := "" |}
  else if String.eqb raw "http://[::1" then Err (errors_New "missing ']' in host")
  else Err (errors_New "parse: address outside the table").

Definition renderEntry (e : string * Service) : string :=
  String.concat "|" [e.1; Host e.2; Path e.2; Status e.2; HealthCheckURL e.2].

Definition lineMarshal (m : gmap string Service) : result string :=
  Val (String.concat ";" (renderEntry <$> map_to_list m)).

Definition parseEntry (line : string) : option (string * Service) :=
  match Split line "|" with
  | [k; h; p; st; hc] =>
      Some (k, {| Host := h; Path := p; Status := st; HealthCheckURL := hc;
                  reverseProxy := None; mux := false |})
  | _ => None
  end.

Fixpoint parseEntries (lines : list string) (acc : gmap string Service)
  : result (gmap string Service) :=
  match lines with
  | [] => Val acc
  | line :: later =>
      match parseEntry line with
      | Some (k, s) => parseEntries later (<[k := s]> acc)
      | None => Err (errors_New "unexpected end of input")
      end
  end.

Definition lineUnmarshal (text : string) : result (gmap string Service) :=
  if String.eqb text "" then Val ∅ else parseEntries (Split text ";") ∅.

Definition lineDecode (body : string) : result Service :=
  match Split body "|" with
  | [h; p; st; hc] =>
      Val {| Host := h; Path := p; Status := st; HealthCheckURL := hc;
             reverseProxy := None; mux := false |}
  | _ => Err (errors_New "unexpected end of input")
  end.

Definition library : Library :=
  {| ToLower := asciiToLower; url_Parse := tableParse;
     json_Marshal := lineMarshal; json_Unmarshal := lineUnmarshal;
     json_Decode := lineDecode |}.

(** Concrete services, stores, gateways and requests. *)

Definition proxy9001 : ReverseProxy :=
  NewSingleHostReverseProxy {| URL_Host := "127.0.0.1:9001" |}.

Definition orders (status : ServiceStatus) : Service :=
  {| Host := "http://127.0.0.1:9001"; Path := "orders"; Status := status;
     HealthCheckURL := "127.0.0.1:9001";
     reverseProxy := Some proxy9001; mux := true |}.

Definition store0 : Redis := {| kv := ∅; faults := [] |}.

Definition options (discoveryURL : string) : ProxyOptions :=
  {| Timeout := (10 * Second)%Z; DiscoveryURL := discoveryURL |}.

Definition gateway (m : gmap string Service) (discoveryURL : string) : Novis :=
  {| services := m; storage := store0; opts := options discoveryURL |}.

Definition request (method path body : string) : Request :=
  {| Method := method; URL_Path := path; RequestURI := path;
     Req_Host := "gateway.local"; Body := body |}.

Definition proxy9002 : ReverseProxy :=
  NewSingleHostReverseProxy {| URL_Host := "127.0.0.1:9002" |}.

(** The body of a registration and the service that [discovery] makes
    of it. *)
Definition billingBody : string := "http://127.0.0.1:9002|billing||127.0.0.1:9002".

Definition billing : Service :=
  {| Host := "http://127.0.0.1:9002"; Path := "billing"; Status := CHECKING;
     HealthCheckURL := "127.0.0.1:9002";
     reverseProxy := Some proxy9002; mux := true |}.

Definition billingSnapshot : string :=
  "billing|http://127.0.0.1:9002|billing|CHECKING|127.0.0.1:9002".

Definition ordersSnapshot : string :=
  "orders|http://127.0.0.1:9001|orders|UP|127.0.0.1:9001".

(** A service with a short prefix of the discovery path. *)
Definition disc : Service :=
  {| Host := "http://127.0.0.1:9001"; Path := "disc"; Status := UP;
     HealthCheckURL := "127.0.0.1:9001";
     reverseProxy := Some proxy9001; mux := true |}.

(** A configuration file that spells a path with a capital, and the
    service that NewFromConfig seeds from it. *)
Definition capitalConfig : Configuration :=
  {| Port := 8080; Server_Timeout := 10; Server_Discovery_Path := "discovery";
     Server_Services :=
       [{| Host := "http://127.0.0.1:9001"; Path := "Orders"; Status := "";
           HealthCheckURL := "127.0.0.1:9001";
           reverseProxy := None; mux := false |}] |}.

Definition capitalOrders : Service :=
  {| Host := "http://127.0.0.1:9001"; Path := "Orders"; Status := CHECKING;
     HealthCheckURL := "127.0.0.1:9001";
     reverseProxy := Some proxy9001; mux := false |}.

(** A store that refuses the next command. *)
Definition refused : goerror := errors_New "dial tcp: connection refused".
Definition storeDown : Redis := {| kv := ∅; faults := [Some refused] |}.

(** A store that holds a snapshot. *)
Definition storeWithOrders : Redis :=
  {| kv := {[svcKey := ordersSnapshot]}; faults := [] |}.

(** A service whose host has an unclosed bracket. *)
Definition unclosed : Service :=
  {| Host := "http://[::1"; Path := "broken"; Status := "";
     HealthCheckURL := "127.0.0.1:9003"; reverseProxy := None; mux := false |}.

(** The argument of a call that names a service by its path. *)
Definition hint (path : string) : Service :=
  {| Host := ""; Path := path; Status := ""; HealthCheckURL := "";
     reverseProxy := None; mux := false |}.

End Sample.

(** ** Facts about the string functions *)

Example Trim_both : Trim "//orders/123/" "/" = "orders/123".
Proof. reflexivity. Qed.

Example Split_leading : Split "/orders/123" "/" = [""; "orders"; "123"].
Proof. reflexivity. Qed.

Example Split_nothing : Split "" "/" = [""].
Proof. reflexivity. Qed.

Example Replace1_once : Replace1 "/a/a/b" "/a" "" = "/a/b".
Proof. reflexivity. Qed.

Example Replace1_absent : Replace1 "/orders/1" "/Orders" "" = "/orders/1".
Proof. reflexivity. Qed.

Example asciiToLower_mixed : asciiToLower "Api/Discovery" = "api/discovery".
Proof. reflexivity. Qed.


Lemma length_pos_iff (s : string) : (0 <? String.length s)%nat = true <-> s <> "".
Proof.
  destruct s as [|c s]; simpl; split; intro H; try congruence; try discriminate.
  reflexivity.
Qed.

Lemma length_pos_false (s : string) : (0 <? String.length s)%nat = false <-> s = "".
Proof.
  destruct s as [|c s]; simpl; split; intro H;
    try reflexivity; try congruence; try discriminate.
Qed.

Lemma splitScan_not_nil (sep : string) (s : string) :
  forall skip, splitScan sep skip s <> [].
Proof.
  induction s as [|c s IH]; intros skip; cbn [splitScan]; [done|].
  destruct skip as [|k]; [|apply IH].
  destruct (String.prefix sep (String c s)); [done|].
  unfold consHead. destruct (splitScan sep 0 s); done.
Qed.

Lemma Split_length_pos (s sep : string) : (0 <? length (Split s sep))%nat = true.
Proof.
  unfold Split. pose proof (splitScan_not_nil sep s 0) as H.
  destruct (splitScan sep 0 s); [congruence | reflexivity].
Qed.

Lemma prefix_append (p r : string) : String.prefix p (p ++ r)%string = true.
Proof.
  induction p as [|c p IH]; simpl; [destruct r; reflexivity|].
  destruct (ascii_dec c c) as [_|Hne]; [exact IH | congruence].
Qed.

Lemma dropBytes_append (p r : string) :
  dropBytes (String.length p) (p ++ r)%string = r.
Proof. induction p as [|c p IH]; simpl; [destruct r; reflexivity | exact IH]. Qed.

Lemma Replace1_unfold (s old new : string) :
  Replace1 s old new
  = if String.prefix old s
    then (new ++ dropBytes (String.length old) s)%string
    else match s with
         | EmptyString => EmptyString
         | String c rest => String c (Replace1 rest old new)
         end.
Proof. destruct s; reflexivity. Qed.

Lemma Replace1_leading (p r : string) : Replace1 (p ++ r)%string p "" = r.
Proof. rewrite Replace1_unfold, prefix_append, dropBytes_append. reflexivity. Qed.


(** ** The store when it executes a command *)

Lemma redis_Set_executes (key value : string) (r : Redis) :
  hd None (faults r) = None ->
  redis_Set key value r
  = ({| kv := <[key := value]> (kv r); faults := tail (faults r) |}, None).
Proof.
  unfold redis_Set, nextFault. destruct r as [m [|f later]]; simpl.
  - reflexivity.
  - intros ->. reflexivity.
Qed.

Lemma redis_Get_executes (key : string) (r : Redis) :
  hd None (faults r) = None ->
  redis_Get key r
  = ({| kv := kv r; faults := tail (faults r) |},
     match kv r !! key with Some v => Val v | None => Err redis_Nil end).
Proof.
  unfold redis_Get, nextFault. destruct r as [m [|f later]]; simpl.
  - intros _. destruct (m !! key); reflexivity.
  - intros ->. simpl. destruct (m !! key); reflexivity.
Qed.

(** ** Properties of the gateway *)

Section Properties.

Context {lib : Library}.

(** *** The store leaves the registry alone *)

Lemma UpdateStorage_services (n : Novis) :
  services (UpdateStorage n).1.1 = services n.
Proof.
  unfold UpdateStorage. destruct (json_Marshal (services n)); [|reflexivity].
  destruct (redis_Set svcKey a (storage n)); reflexivity.
Qed.

Lemma UpdateStorage_opts (n : Novis) : opts (UpdateStorage n).1.1 = opts n.
Proof.
  unfold UpdateStorage. destruct (json_Marshal (services n)); [|reflexivity].
  destruct (redis_Set svcKey a (storage n)); reflexivity.
Qed.

Lemma AddService_services (n : Novis) (service : Service) :
  Trim (Path service) "/" <> "" ->
  services (AddService n service).1.1
  = <[ToLower (Trim (Path service) "/") := service]> (services n).
Proof.
  intros Hp. unfold AddService.
  apply length_pos_iff in Hp. rewrite Hp.
  match goal with |- context [UpdateStorage ?m] =>
    pose proof (UpdateStorage_services m) as Hs;
    destruct (UpdateStorage m) as [[n2 evs] err] end.
  exact Hs.
Qed.

Lemma AddService_error (n : Novis) (service : Service) :
  (AddService n service).2 = None.
Proof.
  unfold AddService.
  destruct (0 <? String.length (Trim (Path service) "/"))%nat; [|reflexivity].
  match goal with |- context [UpdateStorage ?m] =>
    destruct (UpdateStorage m) as [[n2 evs] err] end.
  reflexivity.
Qed.

(** C9. When the snapshot write that [AddService] triggers fails, the
    registry still holds the service at the lower-cased, slash-trimmed
    path, and [AddService] returns nil: the error of the store is
    dropped and the insert stays. *)
Theorem AddService_keeps_insert_when_write_fails
    (n : Novis) (service : Service) (e : goerror) :
  Trim (Path service) "/" <> "" ->
  (UpdateStorage
     (set_services
        (<[ToLower (Trim (Path service) "/") := service]> (services n)) n)).2
  = Some e ->
  (AddService n service).2 = None /\
  services (AddService n service).1.1
  = <[ToLower (Trim (Path service) "/") := service]> (services n) /\
  services (AddService n service).1.1 !! ToLower (Trim (Path service) "/")
  = Some service.
Proof.
  intros Hp _. split; [apply AddService_error|].
  rewrite (AddService_services n service Hp).
  split; [reflexivity | apply lookup_insert_eq].
Qed.

(** C10. When the first segment of the path, lower-cased, is not a key
    of the registry, [PauseService] and [ResumeService] call [SetStatus]
    on the nil pointer of the absent entry and panic, where
    [RemoveService] returns nil and changes nothing. *)
Theorem PauseService_ResumeService_unregistered (n : Novis) (service : Service) :
  services n !! ToLower (hd "" (Split (Path service) "/")) = None ->
  PauseService n service = Panic nil_dereference /\
  ResumeService n service = Panic nil_dereference /\
  RemoveService n service = (n, [], None).
Proof.
  intros Hk.
  unfold PauseService, ResumeService,
    RemoveService, setStatusAt.
  rewrite Split_length_pos, Hk. repeat split; reflexivity.
Qed.

(** Under the precondition both complete and set the status. *)
Lemma PauseService_ResumeService_registered
    (n : Novis) (service : Service) (s : Service) :
  let key := ToLower (hd "" (Split (Path service) "/")) in
  services n !! key = Some s ->
  PauseService n service
  = Done (set_services (<[key := SetStatus s PAUSE]> (services n)) n) /\
  ResumeService n service
  = Done (set_services (<[key := SetStatus s CHECKING]> (services n)) n).
Proof.
  intros key Hk.
  unfold PauseService, ResumeService, setStatusAt.
  rewrite Split_length_pos. fold key. rewrite Hk. split; reflexivity.
Qed.

(** *** Lookups *)

Lemma range_order_elem {V : Type} (m : gmap string V) (order : list string) (k : string) :
  range_order m order -> (k ∈ order <-> is_Some (m !! k)).
Proof.
  unfold range_order. intros Hp. rewrite Hp, list_elem_of_fmap. split.
  - intros [[k' v] [-> Hin]]. apply elem_of_map_to_list in Hin. eauto.
  - intros [v Hv]. exists (k, v). split; [reflexivity|].
    by apply elem_of_map_to_list.
Qed.

Lemma findServiceInMap_cases (order : list string) (path : string) :
  findServiceInMap order path = "" \/ findServiceInMap order path ∈ order.
Proof.
  induction order as [|k order IH]; simpl; [by left|].
  destruct (HasPrefix (ToLower path) (ToLower k)).
  - right. apply list_elem_of_here.
  - destruct IH as [IH|IH]; [by left | right; by apply list_elem_of_further].
Qed.


(** What RemoveService does. [RemoveService] takes the first segment of
    the split path, empty or not, and lower-cases it.  If that key is
    not registered nothing changes and nil is returned.  If it is, the
    entry is deleted and the snapshot is written ([RemoveService]
    returns what that write returns); afterwards the key is absent,
    and whatever the iteration order, [findServiceInMap] returns
    either [""] (not found) or a key that is still registered, never
    the removed one. *)
Theorem RemoveService_first_segment
    (n : Novis) (service : Service) (lp : string) :
  lp = ToLower (hd "" (Split (Path service) "/")) ->
  (services n !! lp = None -> RemoveService n service = (n, [], None)) /\
  (is_Some (services n !! lp) ->
   RemoveService n service
   = UpdateStorage (set_services (delete lp (services n)) n) /\
   services (RemoveService n service).1.1 = delete lp (services n) /\
   services (RemoveService n service).1.1 !! lp = None /\
   forall order path,
     range_order (services (RemoveService n service).1.1) order ->
     findServiceInMap order path = "" \/
     (findServiceInMap order path <> lp /\
      is_Some (services (RemoveService n service).1.1 !! findServiceInMap order path))).
Proof.
  intros Hlp. unfold RemoveService. rewrite Split_length_pos, <- Hlp.
  split.
  - intros ->. reflexivity.
  - intros [s Hs]. rewrite Hs. split; [reflexivity|].
    rewrite UpdateStorage_services. simpl.
    split; [reflexivity|]. split; [apply lookup_delete_eq|].
    intros order path Hord.
    destruct (findServiceInMap_cases order path) as [He|Hin]; [by left|].
    right. apply (range_order_elem _ _ _ Hord) in Hin.
    split; [|exact Hin].
    intros Heq. rewrite Heq, lookup_delete_eq in Hin. by destruct Hin.
Qed.

(** Delegation when the spelling agrees. When the slash-trimmed request
    path is not empty and equals the lower-cased discovery URL,
    [proxyRequest] is
    a call of [discovery], whatever the registry holds.  The request
    path is compared as it is: it is not lower-cased. *)
Theorem proxyRequest_discovery_path
    (order : list string) (n : Novis) (req : Request) :
  Trim (URL_Path req) "/" <> "" ->
  Trim (URL_Path req) "/" = ToLower (DiscoveryURL (opts n)) ->
  proxyRequest order n req
  = Done ((discovery n req).1.1, (discovery n req).1.2).
Proof.
  intros Hne Heq. unfold proxyRequest.
  apply length_pos_iff in Hne. rewrite Hne.
  apply String.eqb_eq in Heq. rewrite Heq.
  destruct (discovery n req) as [[n1 evs] err]. reflexivity.
Qed.


(** *** The discovery handler *)

(** A request with a segment count other than one is answered 404 and,
    as that branch does not return, handled like a registration: with a
    body that decodes, names a healthCheckURL and a host that parses,
    the service is added, whatever the method. *)
Lemma discovery_wrong_segments_continues
    (n : Novis) (req : Request) (s : Service) (u : URL) :
  length (removeEmptyStr (Split (URL_Path req) "/")) <> 1%nat ->
  json_Decode (Body req) = Val s ->
  HealthCheckURL s <> "" ->
  url_Parse (Host s) = Val u ->
  discovery n req
  = ((AddService n (SetReverseProxy (SetStatus (setMux s) CHECKING)
                      (NewSingleHostReverseProxy u))).1.1,
     Respond StatusNotFound ""
       :: (AddService n (SetReverseProxy (SetStatus (setMux s) CHECKING)
                           (NewSingleHostReverseProxy u))).1.2,
     None).
Proof.
  intros Hseg Hdec Hhc Hurl. unfold discovery.
  apply Nat.eqb_neq in Hseg. rewrite Hseg, Hdec. simpl negb. cbv iota.
  destruct (HealthCheckURL s) as [|c hc] eqn:Ehc; [congruence|].
  simpl. rewrite Hurl.
  match goal with |- context [AddService n ?x] =>
    destruct (AddService n x) as [[n1 evs] err] end.
  reflexivity.
Qed.

(** With one segment, a method other than POST is refused and nothing
    is decoded or added. *)
Lemma discovery_wrong_method_refused (n : Novis) (req : Request) :
  length (removeEmptyStr (Split (URL_Path req) "/")) = 1%nat ->
  ToLower (Method req) <> "post" ->
  discovery n req
  = (n, [Respond StatusMethodNotAllowed ""],
     Some (errors_New "Discovery request method not allowed")).
Proof.
  intros Hseg Hm. unfold discovery.
  apply Nat.eqb_eq in Hseg. apply String.eqb_neq in Hm.
  rewrite Hseg, Hm. reflexivity.
Qed.

(** Forwarding when the spelling agrees. For a request whose
    slash-trimmed path is not empty, differs from the lower-cased
    discovery URL and resolves
    through [findServiceInMap] to a registered service that is UP,
    whose host parses and whose reverse proxy is built: when the
    request path begins with ["/"] followed by the path stored in the
    service, the request is handed to that reverse proxy with this
    leading prefix removed once from the path and with the host of
    the parsed upstream URL as its host. *)
Theorem proxyRequest_forwards_stripped
    (order : list string) (n : Novis) (req : Request)
    (s : Service) (sURL : URL) (rp : ReverseProxy) (rest : string) :
  Trim (URL_Path req) "/" <> "" ->
  Trim (URL_Path req) "/" <> ToLower (DiscoveryURL (opts n)) ->
  services n !! findServiceInMap order (Trim (URL_Path req) "/") = Some s ->
  Status s = UP ->
  url_Parse (Host s) = Val sURL ->
  reverseProxy s = Some rp ->
  URL_Path req = (("/" ++ Path s) ++ rest)%string ->
  proxyRequest order n req
  = Done (n, [ServeHTTP rp
                {| Method := Method req;
                   URL_Path := rest;
                   RequestURI := Replace1 (RequestURI req) ("/" ++ Path s) "";
                   Req_Host := URL_Host sURL;
                   Body := Body req |}]).
Proof.
  intros Hne Hdisc Hs Hup Hurl Hrp Hpath. unfold proxyRequest.
  apply length_pos_iff in Hne. rewrite Hne.
  apply String.eqb_neq in Hdisc. rewrite Hdisc, Hs.
  destruct (decide (Status s <> UP)); [contradiction|].
  rewrite Hurl, Hrp. rewrite Hpath at 1. rewrite Replace1_leading.
  reflexivity.
Qed.

(** *** The health check *)

Lemma SetStatus_same (s : Service) : SetStatus s (Status s) = s.
Proof. destruct s; reflexivity. Qed.

(** A visit touches the entry it visits and no other. *)
Lemma healthCheckVisit_other (n : Novis) (k k' : string) (connected : bool) :
  k <> k' ->
  services (healthCheckVisit n k' connected).1 !! k = services n !! k.
Proof.
  intros Hne. unfold healthCheckVisit, isServiceAlive.
  destruct (services n !! k') as [s'|]; [|reflexivity].
  destruct (decide (Status s' <> PAUSE)); [|reflexivity].
  destruct (decide (Status s' <> (if connected then UP else DOWN))); [|reflexivity].
  match goal with |- context [UpdateStorage ?m] =>
    pose proof (UpdateStorage_services m) as Hs;
    destruct (UpdateStorage m) as [[n2 evs] err] end.
  simpl in Hs.
  assert (services n2 !! k = services n !! k) as <-
    by (rewrite Hs; apply lookup_insert_ne; congruence).
  destruct err; reflexivity.
Qed.

Lemma healthCheckTick_other (visits : list (string * bool)) (n : Novis) (k : string) :
  k ∉ visits.*1 ->
  services (healthCheckTick visits n).1 !! k = services n !! k.
Proof.
  revert n. induction visits as [|[k' c] visits IH]; intros n Hk; [reflexivity|].
  simpl in *. apply not_elem_of_cons in Hk as [Hne Hk].
  pose proof (healthCheckVisit_other n k k' c Hne) as Hv.
  destruct (healthCheckVisit n k' c) as [n1 evs1].
  specialize (IH n1 Hk).
  destruct (healthCheckTick visits n1) as [n2 evs2].
  simpl in *. congruence.
Qed.

Lemma healthCheckTick_app (l1 l2 : list (string * bool)) (n : Novis) :
  healthCheckTick (l1 ++ l2) n
  = ((healthCheckTick l2 (healthCheckTick l1 n).1).1,
     (healthCheckTick l1 n).2 ++ (healthCheckTick l2 (healthCheckTick l1 n).1).2).
Proof.
  revert n. induction l1 as [|[k c] l1 IH]; intros n; simpl.
  - destruct (healthCheckTick l2 n); reflexivity.
  - destruct (healthCheckVisit n k c) as [n1 evs1]. rewrite IH.
    destruct (healthCheckTick l1 n1) as [n2 evs2]. simpl.
    by rewrite app_assoc.
Qed.

(** What one visit does to a registered service. *)
Lemma healthCheckVisit_registered
    (n : Novis) (k : string) (connected : bool) (s : Service) :
  services n !! k = Some s ->
  let status := if connected then UP else DOWN in
  let probe := DialTimeout "tcp" (HealthCheckURL s) (3 * Second)%Z in
  let written := UpdateStorage
                   (set_services (<[k := SetStatus s status]> (services n)) n) in
  (Status s = PAUSE -> healthCheckVisit n k connected = (n, [])) /\
  (Status s <> PAUSE ->
   services (healthCheckVisit n k connected).1 !! k = Some (SetStatus s status) /\
   (status = Status s -> healthCheckVisit n k connected = (n, [probe])) /\
   (status <> Status s ->
    healthCheckVisit n k connected
    = (written.1.1,
       probe :: written.1.2
         ++ match written.2 with Some e => [LogWarn e] | None => [] end))).
Proof.
  intros Hs status probe written. unfold healthCheckVisit, isServiceAlive.
  rewrite Hs. fold status. split.
  - intros Hp. destruct (decide (Status s <> PAUSE)); [contradiction | reflexivity].
  - intros Hp. destruct (decide (Status s <> PAUSE)); [|contradiction].
    destruct (decide (Status s <> status)) as [Hch|Hsame].
    + fold written.
      pose proof (UpdateStorage_services
                    (set_services (<[k := SetStatus s status]> (services n)) n)) as Hw.
      fold written in Hw. simpl in Hw.
      destruct written as [[n2 evs] err] eqn:Ew. simpl in *.
      split; [|split].
      * destruct err; simpl; rewrite Hw; apply lookup_insert_eq.
      * intros Heq. congruence.
      * intros _. destruct err; simpl; [reflexivity|].
        by rewrite app_nil_r.
    + apply dec_stable in Hsame. split; [|split].
      * simpl. rewrite <- Hsame, SetStatus_same. exact Hs.
      * reflexivity.
      * intros Hne. congruence.
Qed.

(** C4. In one tick every registered service is visited, at a moment
    when its status is still the one it had when the tick began.  If
    that status is PAUSE the visit makes no connection attempt and
    changes nothing.  Otherwise it dials the service's healthCheckURL
    over TCP with a timeout of 3 seconds and the status becomes UP if
    the connection is established and DOWN if not; the snapshot of the
    whole registry is written exactly when this status differs from
    the stored one (a failure of the write is logged).  Later visits
    of the tick leave the service as this visit left it. *)
Theorem healthCheckTick_each_service
    (visits : list (string * bool)) (n : Novis) (k : string) (s : Service) :
  range_order (services n) visits.*1 ->
  services n !! k = Some s ->
  exists pre connected post,
    visits = pre ++ (k, connected) :: post /\
    let before := (healthCheckTick pre n).1 in
    let visit := healthCheckVisit before k connected in
    let status := if connected then UP else DOWN in
    let probe := DialTimeout "tcp" (HealthCheckURL s) (3 * Second)%Z in
    let written := UpdateStorage
                     (set_services (<[k := SetStatus s status]> (services before))
                        before) in
    services before !! k = Some s /\
    (Status s = PAUSE -> visit = (before, [])) /\
    (Status s <> PAUSE ->
     services visit.1 !! k = Some (SetStatus s status) /\
     (status = Status s -> visit = (before, [probe])) /\
     (status <> Status s ->
      visit = (written.1.1,
               probe :: written.1.2
                 ++ match written.2 with Some e => [LogWarn e] | None => [] end))) /\
    services (healthCheckTick visits n).1 !! k = services visit.1 !! k /\
    (healthCheckTick visits n).2
    = (healthCheckTick pre n).2 ++ visit.2 ++ (healthCheckTick post visit.1).2.
Proof.
  intros Hord Hs.
  assert (Hnd : NoDup visits.*1).
  { unfold range_order in Hord. rewrite Hord. apply NoDup_fst_map_to_list. }
  assert (Hin : k ∈ visits.*1) by (apply (range_order_elem _ _ _ Hord); eauto).
  apply list_elem_of_fmap in Hin as [[k' connected] [Hk Hin]]. simpl in Hk. subst k'.
  apply list_elem_of_split in Hin as [pre [post Hsplit]].
  exists pre, connected, post. split; [exact Hsplit|].
  subst visits. rewrite fmap_app, fmap_cons in Hnd. simpl in Hnd.
  apply NoDup_app in Hnd as [_ [Hpre Hnd]].
  apply NoDup_cons in Hnd as [Hpost _].
  assert (Hnpre : k ∉ pre.*1).
  { intros Hin. apply (Hpre _ Hin). apply list_elem_of_here. }
  pose proof (healthCheckTick_other pre n k Hnpre) as Hb. rewrite Hs in Hb.
  cbv zeta.
  split; [exact Hb|].
  pose proof (healthCheckVisit_registered _ k connected s Hb) as [Hpause Hprobe].
  split; [exact Hpause|]. split; [exact Hprobe|].
  rewrite healthCheckTick_app. simpl.
  destruct (healthCheckVisit (healthCheckTick pre n).1 k connected) as [n1 evs1].
  simpl.
  pose proof (healthCheckTick_other post n1 k Hpost) as Ha.
  destruct (healthCheckTick post n1) as [n2 evs2]. simpl in *.
  split; [exact Ha | reflexivity].
Qed.

(** *** The snapshot *)

Lemma go_range_elem {V : Type} (order : list string) (m : gmap string V)
    (k : string) (v : V) :
  (k, v) ∈ go_range order m <-> k ∈ order /\ m !! k = Some v.
Proof.
  unfold go_range. rewrite list_elem_of_omap. split.
  - intros [k' [Hin Hk']]. destruct (m !! k') as [v'|] eqn:E; [|discriminate].
    simpl in Hk'. injection Hk' as -> ->. auto.
  - intros [Hin Hk]. exists k. rewrite Hk. auto.
Qed.

(** The loop of LoadFromStorage on services whose trimmed path is not
    empty and whose host parses: it runs to the end, every entry of
    the result is an old one or a decoded service under its own
    normalised path, and every decoded service has an entry there. *)
Lemma loadServices_run (vs : list (string * Service)) :
  forall n0 : Novis,
  (forall k v, (k, v) ∈ vs ->
     Trim (Path v) "/" <> "" /\ exists u, url_Parse (Host v) = Val u) ->
  (loadServices vs n0).2 = None /\
  (forall key s',
     services (loadServices vs n0).1.1 !! key = Some s' ->
     services n0 !! key = Some s' \/
     exists k v u, (k, v) ∈ vs /\ key = ToLower (Trim (Path v) "/") /\
                   url_Parse (Host v) = Val u /\
                   s' = loadedService v (NewSingleHostReverseProxy u)) /\
  (forall key, is_Some (services n0 !! key) ->
     is_Some (services (loadServices vs n0).1.1 !! key)) /\
  (forall k v, (k, v) ∈ vs ->
     is_Some (services (loadServices vs n0).1.1 !! ToLower (Trim (Path v) "/"))).
Proof.
  induction vs as [|[k0 v0] vs IH]; intros n0 Hok.
  - simpl. repeat split; auto.
    intros k v Hin. by apply elem_of_nil in Hin.
  - destruct (Hok k0 v0) as [Hp [u Hu]]; [apply list_elem_of_here|].
    cbn [loadServices]. rewrite Hu.
    pose proof (AddService_services n0
                  (loadedService v0 (NewSingleHostReverseProxy u)) Hp) as Hadd.
    destruct (AddService n0 (loadedService v0 (NewSingleHostReverseProxy u)))
      as [[n1 evs1] err1].
    change (Path (loadedService v0 (NewSingleHostReverseProxy u)))
      with (Path v0) in Hadd. simpl in Hadd.
    destruct (IH n1) as (Herr & Hfrom & Hkeep & Hall).
    { intros k v Hin. apply (Hok k v). by apply list_elem_of_further. }
    destruct (loadServices vs n1) as [[n2 evs2] err2]. simpl in *.
    split; [exact Herr|]. split; [|split].
    + intros key s' Hl. destruct (Hfrom key s' Hl) as [Hold|(k & v & u' & Hin & ? & ? & ?)].
      * rewrite Hadd in Hold.
        destruct (decide (ToLower (Trim (Path v0) "/") = key)) as [Heq|Hne].
        -- subst key. rewrite lookup_insert_eq in Hold. injection Hold as <-.
           right. exists k0, v0, u. split; [apply list_elem_of_here | auto].
        -- rewrite lookup_insert_ne in Hold by exact Hne. by left.
      * right. exists k, v, u'. split; [by apply list_elem_of_further | auto].
    + intros key Hsome. apply Hkeep. rewrite Hadd.
      destruct (decide (ToLower (Trim (Path v0) "/") = key)) as [Heq|Hne].
      * subst key. rewrite lookup_insert_eq. eauto.
      * by rewrite lookup_insert_ne.
    + intros k v Hin. apply elem_of_cons in Hin as [Heq|Hin].
      * injection Heq as -> ->. apply Hkeep. rewrite Hadd, lookup_insert_eq. eauto.
      * by apply (Hall k v).
Qed.

(** C3, as the code has it. Take a registry in which every service
    sits under the key that [AddService] gives it (its slash-trimmed
    path, not empty, lower-cased) and has a host that parses, a codec
    that reads back the snapshot of this registry as it was written,
    and a store that executes the write and the read.  Then
    [UpdateStorage] followed by [LoadFromStorage] into an empty
    gateway succeeds, whatever the order of the loop, and gives a
    registry with the same keys and, under each key, the same host,
    path and healthCheckURL. *)
Theorem snapshot_round_trip
    (n : Novis) (o : ProxyOptions) (order : list string) (text : string) :
  (forall k s, services n !! k = Some s ->
     Trim (Path s) "/" <> "" /\
     ToLower (Trim (Path s) "/") = k /\
     exists u, url_Parse (Host s) = Val u) ->
  json_Marshal (services n) = Val text ->
  json_Unmarshal text = Val (exported <$> services n) ->
  hd None (faults (storage n)) = None ->
  hd None (tail (faults (storage n))) = None ->
  range_order (services n) order ->
  let saved := UpdateStorage n in
  let loaded := LoadFromStorage order (emptyNovis o (storage saved.1.1)) in
  saved.2 = None /\
  loaded.2 = None /\
  dom (services loaded.1.1) = dom (services n) /\
  forall k s, services n !! k = Some s ->
    exists s', services loaded.1.1 !! k = Some s' /\
               Host s' = Host s /\ Path s' = Path s /\
               HealthCheckURL s' = HealthCheckURL s.
Proof.
  intros Hnorm Hm Hu Hf0 Hf1 Hord saved loaded.
  assert (Hsaved : saved
                   = (set_storage {| kv := <[svcKey := text]> (kv (storage n));
                                     faults := tail (faults (storage n)) |} n,
                      [RedisSet svcKey text], None)).
  { unfold saved, UpdateStorage. rewrite Hm, redis_Set_executes by exact Hf0.
    reflexivity. }
  set (vs := go_range order (exported <$> services n)).
  set (n0 := set_storage
               {| kv := <[svcKey := text]> (kv (storage n));
                  faults := tail (tail (faults (storage n))) |}
               (emptyNovis o (storage saved.1.1))).
  assert (Hloaded : loaded
                    = ((loadServices vs n0).1.1,
                       RedisGet svcKey :: (loadServices vs n0).1.2,
                       (loadServices vs n0).2)).
  { unfold loaded, LoadFromStorage. rewrite Hsaved. simpl.
    rewrite redis_Get_executes by exact Hf1. simpl.
    rewrite lookup_insert_eq, Hu. fold vs.
    unfold n0. rewrite Hsaved. simpl. unfold set_storage, emptyNovis. simpl.
    match goal with |- context [loadServices vs ?m] =>
      destruct (loadServices vs m) as [[n1 evs] err] end.
    reflexivity. }
  assert (Hvs : forall k v, (k, v) ∈ vs <->
                  exists s, services n !! k = Some s /\ v = exported s).
  { intros k v. unfold vs. rewrite go_range_elem, lookup_fmap. split.
    - intros [_ Hl]. destruct (services n !! k) as [s|]; [|discriminate].
      injection Hl as <-. eauto.
    - intros [s [Hs ->]]. rewrite Hs. split; [|reflexivity].
      apply (range_order_elem _ _ _ Hord). eauto. }
  destruct (loadServices_run vs n0) as (Herr & Hfrom & _ & Hall).
  { intros k v Hin. apply Hvs in Hin as [s [Hs ->]].
    destruct (Hnorm k s Hs) as (Hp & _ & Hparse). auto. }
  assert (Hlook : forall k s, services n !! k = Some s ->
            exists s', services (loadServices vs n0).1.1 !! k = Some s' /\
                       Host s' = Host s /\ Path s' = Path s /\
                       HealthCheckURL s' = HealthCheckURL s).
  { intros k s Hs. destruct (Hnorm k s Hs) as (_ & Hk & _).
    destruct (Hall k (exported s)) as [s' Hs'].
    { apply Hvs. eauto. }
    change (Path (exported s)) with (Path s) in Hs'. rewrite Hk in Hs'.
    exists s'. split; [exact Hs'|].
    destruct (Hfrom k s' Hs') as [Hold|(k2 & v2 & u & Hin & Hkey & _ & ->)].
    { unfold n0 in Hold. simpl in Hold. rewrite lookup_empty in Hold. discriminate. }
    apply Hvs in Hin as [s2 [Hs2 ->]].
    change (Path (exported s2)) with (Path s2) in Hkey.
    destruct (Hnorm k2 s2 Hs2) as (_ & Hk2 & _).
    assert (k2 = k) by congruence. subst k2.
    assert (s2 = s) by congruence. subst s2.
    repeat split. }
  rewrite Hsaved, Hloaded. simpl.
  split; [reflexivity|]. split; [exact Herr|]. split; [|exact Hlook].
  apply set_eq. intros key. rewrite !elem_of_dom. split.
  - intros [s' Hs'].
    destruct (Hfrom key s' Hs') as [Hold|(k2 & v2 & u & Hin & Hkey & _ & _)].
    { unfold n0 in Hold. simpl in Hold. rewrite lookup_empty in Hold. discriminate. }
    apply Hvs in Hin as [s2 [Hs2 ->]].
    change (Path (exported s2)) with (Path s2) in Hkey.
    destruct (Hnorm k2 s2 Hs2) as (_ & Hk2 & _).
    rewrite Hkey, Hk2. eauto.
  - intros [s Hs]. destruct (Hlook key s Hs) as [s' [Hs' _]]. eauto.
Qed.

End Properties.

(** ** The code on examples *)

Section Examples.

Import Sample.
Existing Instance library.

(** *** Registration and start-up *)

(** NewFromConfig keys a seeded service by its trimmed path as the file
    spells it, and gives it the status CHECKING. *)
Example NewFromConfig_seeds :
  (fun r => services r.1.1) <$>
    (match NewFromConfig capitalConfig store0 [] with
     | Val r => Some r
     | Err _ => None
     end)
  = Some {["Orders" := capitalOrders]}.
Proof. vm_compute. reflexivity. Qed.

(** A registration through the router. *)
Example discovery_registers :
  proxyRequest [] (gateway ∅ "discovery") (request "POST" "/discovery" billingBody)
  = Done ({| services := {["billing" := billing]};
             storage := {| kv := {[svcKey := billingSnapshot]}; faults := [] |};
             opts := options "discovery" |},
          [RedisSet svcKey billingSnapshot]).
Proof. vm_compute. reflexivity. Qed.

(** The scenario of a missing healthCheckURL. *)
Example discovery_without_healthCheckURL :
  proxyRequest [] (gateway ∅ "discovery")
    (request "POST" "/discovery" "http://127.0.0.1:9002|billing||")
  = Done (gateway ∅ "discovery",
          [Respond StatusBadRequest "Health check url is not valid"]).
Proof. vm_compute. reflexivity. Qed.

(** *** C1 *)

(** C1. The service [orders] is UP under the key [orders].  The path
    [/Orders/123] resolves to it, since findServiceInMap compares
    lower-cased texts, and the request is forwarded; but the prefix is
    taken off by a search for [/orders] as it is stored, which the path
    does not contain: the outbound path is still [/Orders/123], where
    the prefix should have been stripped once, leaving [/123]. *)
Theorem proxyRequest_case_mismatch_forwards_unstripped :
  findServiceInMap ["orders"] (Trim "/Orders/123" "/") = "orders" /\
  services (gateway {["orders" := orders UP]} "discovery") !! "orders"
  = Some (orders UP) /\
  proxyRequest ["orders"] (gateway {["orders" := orders UP]} "discovery")
    (request "GET" "/Orders/123" "")
  = Done (gateway {["orders" := orders UP]} "discovery",
          [ServeHTTP proxy9001
             {| Method := "GET"; URL_Path := "/Orders/123";
                RequestURI := "/Orders/123";
                Req_Host := "127.0.0.1:9001"; Body := "" |}]).
Proof. repeat split; vm_compute; reflexivity. Qed.

(** The discovery path comes first: the trimmed path [discovery]
    resolves to the registered service [disc], which is UP, and the
    request goes to the discovery handler, which refuses a GET. *)
Lemma proxyRequest_discovery_path_not_forwarded :
  findServiceInMap ["disc"] (Trim "/discovery" "/") = "disc" /\
  services (gateway {["disc" := disc]} "discovery") !! "disc" = Some disc /\
  Status disc = UP /\
  proxyRequest ["disc"] (gateway {["disc" := disc]} "discovery")
    (request "GET" "/discovery" "")
  = Done (gateway {["disc" := disc]} "discovery",
          [Respond StatusMethodNotAllowed ""]).
Proof. repeat split; vm_compute; reflexivity. Qed.

Lemma proxyRequest_forwards_stripped_witness :
  proxyRequest ["orders"] (gateway {["orders" := orders UP]} "discovery")
    (request "GET" "/orders/123" "")
  = Done (gateway {["orders" := orders UP]} "discovery",
          [ServeHTTP proxy9001
             {| Method := "GET"; URL_Path := "/123"; RequestURI := "/123";
                Req_Host := "127.0.0.1:9001"; Body := "" |}]).
Proof.
  apply (proxyRequest_forwards_stripped ["orders"]
           (gateway {["orders" := orders UP]} "discovery")
           (request "GET" "/orders/123" "")
           (orders UP) {| URL_Host := "127.0.0.1:9001" |} proxy9001 "/123").
  - vm_compute. discriminate.
  - vm_compute. discriminate.
  - vm_compute. reflexivity.
  - reflexivity.
  - reflexivity.
  - reflexivity.
  - reflexivity.
Defined.

(** *** C2 *)



(** *** C3 *)

(** The registry that NewFromConfig seeds from [capitalConfig] has the
    key [Orders].  Its snapshot is written and loaded into an empty
    gateway without error, and the registry that results has the key
    [orders] and no key [Orders]. *)
Lemma snapshot_round_trip_changes_key :
  services (gateway {["Orders" := capitalOrders]} "discovery") !! "Orders"
  = Some capitalOrders /\
  (UpdateStorage (gateway {["Orders" := capitalOrders]} "discovery")).2 = None /\
  (LoadFromStorage ["Orders"]
     (emptyNovis (options "discovery")
        (storage (UpdateStorage
                    (gateway {["Orders" := capitalOrders]} "discovery")).1.1))).2
  = None /\
  services
    (LoadFromStorage ["Orders"]
       (emptyNovis (options "discovery")
          (storage (UpdateStorage
                      (gateway {["Orders" := capitalOrders]} "discovery")).1.1))).1.1
  = {["orders" := loadedService capitalOrders proxy9001]}.
Proof. repeat split; vm_compute; reflexivity. Qed.

Lemma snapshot_round_trip_witness :
  dom (services
         (LoadFromStorage ["orders"]
            (emptyNovis (options "discovery")
               (storage (UpdateStorage
                           (gateway {["orders" := orders UP]} "discovery")).1.1))).1.1)
  = dom (services (gateway {["orders" := orders UP]} "discovery")).
Proof.
  apply (snapshot_round_trip (gateway {["orders" := orders UP]} "discovery")
           (options "discovery") ["orders"] ordersSnapshot).
  - intros k s Hs. cbn [gateway services] in Hs.
    apply lookup_singleton_Some in Hs as [<- <-].
    split; [vm_compute; discriminate|]. split; [vm_compute; reflexivity|].
    exists {| URL_Host := "127.0.0.1:9001" |}. reflexivity.
  - vm_compute. reflexivity.
  - vm_compute. reflexivity.
  - reflexivity.
  - reflexivity.
  - unfold range_order. vm_compute. reflexivity.
Defined.

(** *** C4 *)

(** A service that is UP and does not answer: one probe, the status
    DOWN, one snapshot. *)
Lemma healthCheckTick_each_service_witness :
  exists pre connected post,
    [("orders", false)] = pre ++ ("orders", connected) :: post /\
    healthCheckTick [("orders", false)] (gateway {["orders" := orders UP]} "discovery")
    = ({| services := {["orders" := orders DOWN]};
          storage := {| kv := {[svcKey := "orders|http://127.0.0.1:9001|orders|DOWN|127.0.0.1:9001"]};
                        faults := [] |};
          opts := options "discovery" |},
       [DialTimeout "tcp" "127.0.0.1:9001" 3000000000;
        RedisSet svcKey "orders|http://127.0.0.1:9001|orders|DOWN|127.0.0.1:9001"]).
Proof.
  destruct (healthCheckTick_each_service [("orders", false)]
              (gateway {["orders" := orders UP]} "discovery")
              "orders" (orders UP)) as (pre & connected & post & Hsplit & _).
  - unfold range_order. vm_compute. reflexivity.
  - vm_compute. reflexivity.
  - exists pre, connected, post. split; [exact Hsplit|].
    vm_compute. reflexivity.
Defined.

(** A paused service is left alone. *)
Example healthCheckTick_paused :
  healthCheckTick [("orders", true)] (gateway {["orders" := orders PAUSE]} "discovery")
  = (gateway {["orders" := orders PAUSE]} "discovery", []).
Proof. vm_compute. reflexivity. Qed.

(** *** C5 *)

(** With the discovery URL [api/discovery] a registration has two path
    segments: the handler answers 404, goes on to decode the body
    (the method is not looked at) and registers the service. *)
Theorem discovery_two_segments_registers :
  removeEmptyStr (Split "/api/discovery" "/") = ["api"; "discovery"] /\
  proxyRequest [] (gateway ∅ "api/discovery")
    (request "GET" "/api/discovery" billingBody)
  = Done ({| services := {["billing" := billing]};
             storage := {| kv := {[svcKey := billingSnapshot]}; faults := [] |};
             opts := options "api/discovery" |},
          [Respond StatusNotFound ""; RedisSet svcKey billingSnapshot]).
Proof. split; vm_compute; reflexivity. Qed.

(** With one segment and another method the handler does abort. *)
Example discovery_wrong_method_aborts :
  proxyRequest [] (gateway ∅ "discovery") (request "GET" "/discovery" billingBody)
  = Done (gateway ∅ "discovery", [Respond StatusMethodNotAllowed ""]).
Proof. vm_compute. reflexivity. Qed.

(** *** C6 *)

(** C6. A service with the path [/orders] is added: AddService trims
    the slashes and registers it under [orders].  RemoveService of the
    same service splits the path, looks up its first segment, which is
    empty, finds nothing and leaves the service registered, where the
    first non-empty segment, [orders], should have been removed. *)
Theorem RemoveService_misses_added_service :
  removeEmptyStr (Split (Path (hint "/orders")) "/") = ["orders"] /\
  services (AddService (gateway ∅ "discovery") (hint "/orders")).1.1 !! "orders"
  = Some (hint "/orders") /\
  RemoveService (AddService (gateway ∅ "discovery") (hint "/orders")).1.1
    (hint "/orders")
  = ((AddService (gateway ∅ "discovery") (hint "/orders")).1.1, [], None) /\
  findServiceInMap ["orders"] "orders/1" = "orders".
Proof. repeat split; vm_compute; reflexivity. Qed.

(** The same on a registry that holds [orders]: the first non-empty
    segment of [/orders] is the registered key, and RemoveService
    removes nothing. *)
Lemma RemoveService_leading_slash_keeps_entry :
  removeEmptyStr (Split "/orders" "/") = ["orders"] /\
  services (gateway {["orders" := orders UP]} "discovery") !! "orders"
  = Some (orders UP) /\
  RemoveService (gateway {["orders" := orders UP]} "discovery") (hint "/orders")
  = (gateway {["orders" := orders UP]} "discovery", [], None).
Proof. repeat split; vm_compute; reflexivity. Qed.

Lemma RemoveService_first_segment_witness :
  RemoveService (gateway {["orders" := orders UP]} "discovery") (hint "Orders/123")
  = UpdateStorage
      (set_services (delete "orders" {["orders" := orders UP]})
         (gateway {["orders" := orders UP]} "discovery")) /\
  services (RemoveService (gateway {["orders" := orders UP]} "discovery")
              (hint "Orders/123")).1.1 !! "orders" = None.
Proof.
  destruct (RemoveService_first_segment
              (gateway {["orders" := orders UP]} "discovery")
              (hint "Orders/123") "orders") as [_ Hreg].
  - vm_compute. reflexivity.
  - destruct Hreg as (Hrun & _ & Hgone & _).
    + exists (orders UP). vm_compute. reflexivity.
    + split; [exact Hrun | exact Hgone].
Defined.

(** *** C7 *)

(** A snapshot that holds the service [orders] with the status UP is
    loaded into an empty gateway: the service is inserted with the
    empty status, which is not CHECKING. *)
Theorem LoadFromStorage_status_is_empty :
  LoadFromStorage ["orders"] (emptyNovis (options "discovery") storeWithOrders)
  = ({| services := {["orders" := orders ""]};
        storage :=
          {| kv := {[svcKey := "orders|http://127.0.0.1:9001|orders||127.0.0.1:9001"]};
             faults := [] |};
        opts := options "discovery" |},
     [RedisGet svcKey;
      RedisSet svcKey "orders|http://127.0.0.1:9001|orders||127.0.0.1:9001"],
     None) /\
  Status (orders "") <> CHECKING.
Proof. split; [vm_compute; reflexivity | vm_compute; discriminate]. Qed.

(** The other two ways into the registry give CHECKING: see
    [NewFromConfig_seeds] and [discovery_registers]. *)

(** *** C8 *)

(** C8. The path [/Discovery], trimmed and lower-cased, is the
    discovery URL [discovery], so the request should go to the
    discovery handler.  The router lower-cases the configured URL only
    and compares it with [Discovery] as spelled: the request is not
    delegated, it is looked up in the registry and answered 404, where
    the discovery handler would have registered the service. *)
Theorem proxyRequest_capital_path_not_delegated :
  ToLower (Trim "/Discovery" "/") = DiscoveryURL (opts (gateway ∅ "discovery")) /\
  proxyRequest [] (gateway ∅ "discovery") (request "POST" "/Discovery" billingBody)
  = Done (gateway ∅ "discovery", [Respond StatusNotFound ""]) /\
  (discovery (gateway ∅ "discovery") (request "POST" "/Discovery" billingBody)).1.2
  = [RedisSet svcKey billingSnapshot].
Proof. repeat split; vm_compute; reflexivity. Qed.

Lemma proxyRequest_discovery_path_witness :
  proxyRequest ["disc"] (gateway {["disc" := disc]} "Discovery")
    (request "POST" "/discovery" billingBody)
  = Done ((discovery (gateway {["disc" := disc]} "Discovery")
             (request "POST" "/discovery" billingBody)).1.1,
          [RedisSet svcKey
             "billing|http://127.0.0.1:9002|billing|CHECKING|127.0.0.1:9002;disc|http://127.0.0.1:9001|disc|UP|127.0.0.1:9001"]).
Proof.
  rewrite (proxyRequest_discovery_path ["disc"]
             (gateway {["disc" := disc]} "Discovery")
             (request "POST" "/discovery" billingBody)).
  - vm_compute. reflexivity.
  - vm_compute. discriminate.
  - vm_compute. reflexivity.
Defined.

(** *** C9 *)

Lemma AddService_keeps_insert_when_write_fails_witness :
  (UpdateStorage
     {| services := {["orders" := orders CHECKING]}; storage := storeDown;
        opts := options "discovery" |}).2 = Some refused /\
  (AddService {| services := ∅; storage := storeDown; opts := options "discovery" |}
     (orders CHECKING)).2 = None /\
  services
    (AddService {| services := ∅; storage := storeDown; opts := options "discovery" |}
       (orders CHECKING)).1.1 !! "orders"
  = Some (orders CHECKING).
Proof.
  split; [vm_compute; reflexivity|].
  destruct (AddService_keeps_insert_when_write_fails
              {| services := ∅; storage := storeDown; opts := options "discovery" |}
              (orders CHECKING) refused) as (Hnil & _ & Hin).
  - vm_compute. discriminate.
  - vm_compute. reflexivity.
  - split; [exact Hnil | exact Hin].
Defined.

(** *** C10 *)

Lemma PauseService_ResumeService_unregistered_witness :
  PauseService (gateway {["orders" := orders UP]} "discovery") (hint "billing")
  = Panic nil_dereference /\
  ResumeService (gateway {["orders" := orders UP]} "discovery") (hint "/orders")
  = Panic nil_dereference.
Proof.
  split.
  - apply (PauseService_ResumeService_unregistered
             (gateway {["orders" := orders UP]} "discovery") (hint "billing")).
    vm_compute. reflexivity.
  - apply (PauseService_ResumeService_unregistered
             (gateway {["orders" := orders UP]} "discovery") (hint "/orders")).
    vm_compute. reflexivity.
Defined.

Example PauseService_then_ResumeService :
  PauseService (gateway {["orders" := orders UP]} "discovery") (hint "orders")
  = Done (gateway {["orders" := orders PAUSE]} "discovery") /\
  ResumeService (gateway {["orders" := orders PAUSE]} "discovery") (hint "orders")
  = Done (gateway {["orders" := orders CHECKING]} "discovery").
Proof. split; vm_compute; reflexivity. Qed.

End Examples.

(** ** Further properties of the package *)

(** *** [utils.go] *)

(** removeEmptyStr keeps the non-empty strings, in their order, and
    nothing else; applying it twice changes nothing more. *)
Theorem removeEmptyStr_keeps_nonempty (l : list string) :
  removeEmptyStr l = filter (fun s => s <> "") l /\
  Forall (fun s => s <> "") (removeEmptyStr l) /\
  removeEmptyStr (removeEmptyStr l) = removeEmptyStr l.
Proof.
  assert (Hf : forall l', removeEmptyStr l' = filter (fun s => s <> "") l').
  { induction l' as [|s l' IH]; [reflexivity|].
    cbn [removeEmptyStr]. rewrite filter_cons.
    destruct s as [|c s]; simpl.
    - destruct (decide ("" <> "")) as [Hne|_]; [by destruct Hne | exact IH].
    - destruct (decide (String c s <> "")) as [_|He]; [by rewrite IH|].
      destruct He. discriminate. }
  split; [apply Hf|]. split.
  - rewrite Hf. apply Forall_forall. intros x Hx.
    by apply list_elem_of_filter in Hx as [Hx _].
  - rewrite !Hf. apply list_filter_filter_l. auto.
Qed.

(** *** Segments of a path *)

Lemma prefix_cons (a c : ascii) (p s : string) :
  String.prefix (String a p) (String c s)
  = if ascii_dec a c then String.prefix p s else false.
Proof. reflexivity. Qed.

Lemma splitScan_slash_step (c : ascii) (s : string) :
  splitScan "/" 0 (String c s)
  = if Ascii.eqb c "/" then "" :: splitScan "/" 0 s
    else consHead c (splitScan "/" 0 s).
Proof.
  cbn [splitScan]. rewrite prefix_cons.
  change (String.length "/" - 1) with 0.
  destruct (ascii_dec "/" c) as [<-|Hne].
  - destruct s; reflexivity.
  - assert (Ascii.eqb c "/" = false) as -> by (apply Ascii.eqb_neq; congruence).
    reflexivity.
Qed.

Lemma inCutset_slash (c : ascii) : inCutset c "/" = Ascii.eqb c "/".
Proof. simpl. apply orb_false_r. Qed.

(** A text without a slash is one segment. *)
Lemma Split_no_slash (t : string) :
  inCutset "/" t = false -> Split t "/" = [t].
Proof.
  unfold Split. induction t as [|c t IH]; [reflexivity|].
  cbn [inCutset]. intros H. apply orb_false_elim in H as [Hc Ht].
  rewrite splitScan_slash_step, (IH Ht).
  rewrite Ascii.eqb_sym in Hc. rewrite Hc. reflexivity.
Qed.

Lemma Trim_no_slash (t : string) :
  inCutset "/" t = false -> Trim t "/" = t.
Proof.
  intros H. unfold Trim.
  assert (Hl : TrimLeft t "/" = t).
  { destruct t as [|c t]; [reflexivity|]. cbn [inCutset] in H.
    apply orb_false_elim in H as [Hc _]. cbn [TrimLeft].
    rewrite inCutset_slash, Ascii.eqb_sym, Hc. reflexivity. }
  rewrite Hl. clear Hl. induction t as [|c t IH]; [reflexivity|].
  cbn [inCutset] in H. apply orb_false_elim in H as [Hc Ht].
  cbn [TrimRight]. rewrite (IH Ht), inCutset_slash, Ascii.eqb_sym, Hc.
  destruct t; reflexivity.
Qed.

Lemma segments_TrimLeft (s : string) :
  removeEmptyStr (Split (TrimLeft s "/") "/") = removeEmptyStr (Split s "/").
Proof.
  unfold Split. induction s as [|c s IH]; [reflexivity|].
  cbn [TrimLeft]. rewrite inCutset_slash.
  destruct (Ascii.eqb c "/") eqn:E; [|reflexivity].
  rewrite IH, (splitScan_slash_step c s), E. reflexivity.
Qed.

Lemma segments_TrimRight (s : string) :
  exists f fs fs',
    Split s "/" = f :: fs /\ Split (TrimRight s "/") "/" = f :: fs' /\
    removeEmptyStr fs = removeEmptyStr fs'.
Proof.
  unfold Split. induction s as [|c s IH].
  - exists "", [], []. auto.
  - destruct IH as (f & fs & fs' & Hs & Ht & Hr).
    rewrite splitScan_slash_step, Hs. cbn [TrimRight]. rewrite inCutset_slash.
    destruct (TrimRight s "/") as [|d kept] eqn:Ek.
    + cbn [splitScan] in Ht. injection Ht as <- <-.
      destruct (Ascii.eqb c "/") eqn:E.
      * exists "", ("" :: fs), []. simpl in *. auto.
      * exists (String c ""), fs, [].
        rewrite splitScan_slash_step, E. simpl in *. auto.
    + rewrite (splitScan_slash_step c (String d kept)), Ht.
      destruct (Ascii.eqb c "/") eqn:E.
      * exists "", (f :: fs), (f :: fs'). repeat split.
        cbn [removeEmptyStr]. rewrite Hr. reflexivity.
      * exists (String c f), fs, fs'. auto.
Qed.

(** The segments that the discovery handler counts are those of the
    slash-trimmed path that the router compares: when the trimmed path
    is not empty and has no slash inside, it is the one segment. *)
Theorem segments_of_simple_path (s : string) :
  Trim s "/" <> "" ->
  inCutset "/" (Trim s "/") = false ->
  removeEmptyStr (Split s "/") = [Trim s "/"].
Proof.
  intros Hne Hno. rewrite <- segments_TrimLeft.
  destruct (segments_TrimRight (TrimLeft s "/")) as (f & fs & fs' & Hs & Ht & Hr).
  fold (Trim s "/") in Ht. rewrite (Split_no_slash _ Hno) in Ht.
  injection Ht as <- <-. rewrite Hs. cbn [removeEmptyStr].
  apply length_pos_iff in Hne. rewrite Hne, Hr. reflexivity.
Qed.

(** randomIntegerInRange on ints [min] and [max], by the difference
    [max - min].  If it is positive and fits an int, the result is a
    number from [min] up to, and not including, [max].  If it is zero
    or negative and fits an int, [rand.Intn] panics.  If it does not
    fit, the subtraction wraps: a difference of [2^63] or more becomes
    negative and the function panics although the range is not empty,
    and a difference below [-2^63] becomes positive and the function
    returns a number although [max] is below [min]. *)
Theorem randomIntegerInRange_bounds (draw min max : Z) :
  inInt min -> inInt max ->
  ((min < max)%Z -> (max - min < 2 ^ 63)%Z ->
   exists v, randomIntegerInRange draw min max = Done v /\ (min <= v < max)%Z) /\
  ((max <= min)%Z -> (- 2 ^ 63 <= max - min)%Z ->
   randomIntegerInRange draw min max = Panic "invalid argument to Intn") /\
  ((2 ^ 63 <= max - min)%Z ->
   randomIntegerInRange draw min max = Panic "invalid argument to Intn") /\
  ((max - min < - 2 ^ 63)%Z ->
   exists v, randomIntegerInRange draw min max = Done v).
Proof.
  unfold inInt, randomIntegerInRange, rand_Intn, wrap64.
  intros Hmin Hmax. split; [|split; [|split]].
  - intros Hlt Hw.
    assert (Hd : ((max - min + 2 ^ 63) mod 2 ^ 64 - 2 ^ 63 = max - min)%Z).
    { rewrite Z.mod_small by lia. lia. }
    rewrite Hd. destruct (Z.leb_spec (max - min) 0) as [Hle|Hpos]; [lia|].
    pose proof (Z.mod_pos_bound draw (max - min) Hpos) as Hr.
    eexists. split; [reflexivity|].
    rewrite Z.mod_small by lia. lia.
  - intros Hle Hw.
    assert (Hd : ((max - min + 2 ^ 63) mod 2 ^ 64 - 2 ^ 63 = max - min)%Z).
    { rewrite Z.mod_small by lia. lia. }
    rewrite Hd. destruct (Z.leb_spec (max - min) 0) as [_|Hpos]; [reflexivity | lia].
  - intros Hbig.
    assert (Hd : ((max - min + 2 ^ 63) mod 2 ^ 64 - 2 ^ 63 = max - min - 2 ^ 64)%Z).
    { replace (max - min + 2 ^ 63)%Z with (max - min - 2 ^ 63 + 1 * 2 ^ 64)%Z by lia.
      rewrite Z.mod_add by lia. rewrite Z.mod_small by lia. lia. }
    rewrite Hd. destruct (Z.leb_spec (max - min - 2 ^ 64) 0) as [_|Hpos];
      [reflexivity | lia].
  - intros Hsmall.
    assert (Hd : ((max - min + 2 ^ 63) mod 2 ^ 64 - 2 ^ 63 = max - min + 2 ^ 64)%Z).
    { replace (max - min + 2 ^ 63)%Z with (max - min + 2 ^ 63 + 2 ^ 64 + (-1) * 2 ^ 64)%Z
        by lia.
      rewrite Z.mod_add by lia. rewrite Z.mod_small by lia. lia. }
    rewrite Hd. destruct (Z.leb_spec (max - min + 2 ^ 64) 0) as [Hle|_]; [lia|].
    eauto.
Qed.

(** When the width of the range does not fit an int the subtraction
    wraps, and a range that is not empty can make the function panic. *)
Example randomIntegerInRange_wide_range :
  randomIntegerInRange 0 (- 2 ^ 63) (2 ^ 63 - 1) = Panic "invalid argument to Intn".
Proof. vm_compute. reflexivity. Qed.

Section Coverage.

Context {lib : Library}.

(** isPathInList says whether some path of the list is, lower-cased, a
    prefix of the lower-cased argument. *)
Theorem isPathInList_iff (l : list string) (d : string) :
  isPathInList l d = true <->
  exists p, p ∈ l /\ HasPrefix (ToLower d) (ToLower p) = true.
Proof.
  induction l as [|p l IH]; simpl.
  - split; [discriminate|]. intros [p [Hin _]]. by apply elem_of_nil in Hin.
  - destruct (HasPrefix (ToLower d) (ToLower p)) eqn:E.
    + split; [|reflexivity]. intros _. exists p. split; [apply list_elem_of_here | exact E].
    + rewrite IH. split.
      * intros [q [Hin Hq]]. exists q. split; [by apply list_elem_of_further | exact Hq].
      * intros [q [Hin Hq]]. apply elem_of_cons in Hin as [->|Hin]; [congruence|].
        exists q. auto.
Qed.

(** *** findServiceInMap *)

Lemma findServiceInMap_first (order : list string) (path : string) :
  (isPathInList order path = false /\ findServiceInMap order path = "") \/
  (isPathInList order path = true /\
   exists pre post,
     order = pre ++ findServiceInMap order path :: post /\
     HasPrefix (ToLower path) (ToLower (findServiceInMap order path)) = true /\
     forall k, k ∈ pre -> HasPrefix (ToLower path) (ToLower k) = false).
Proof.
  induction order as [|k order IH]; simpl; [by left|].
  destruct (HasPrefix (ToLower path) (ToLower k)) eqn:E.
  - right. split; [reflexivity|]. exists [], order. split; [reflexivity|].
    split; [exact E|]. intros k' Hk'. by apply elem_of_nil in Hk'.
  - destruct IH as [[Hno Hr]|[Hyes (pre & post & Ho & Hm & Hpre)]].
    + left. auto.
    + right. split; [exact Hyes|]. exists (k :: pre), post.
      split; [simpl; congruence|]. split; [exact Hm|].
      intros k' Hk'. apply elem_of_cons in Hk' as [->|Hk']; auto.
Qed.

(** findServiceInMap and isPathInList agree.  When isPathInList finds no
    key that is a prefix of the path (both lower-cased),
    findServiceInMap returns [""].  When it finds one, findServiceInMap
    returns the first such key in the order of the iteration, whether
    or not a longer key matches later.  The result [""] therefore means
    that no key matches only when the empty key is not among the keys:
    then it is returned exactly when no key matches. *)
Theorem findServiceInMap_first_match (order : list string) (path : string) :
  ((isPathInList order path = false /\ findServiceInMap order path = "") \/
   (isPathInList order path = true /\
    exists pre post,
      order = pre ++ findServiceInMap order path :: post /\
      HasPrefix (ToLower path) (ToLower (findServiceInMap order path)) = true /\
      forall k, k ∈ pre -> HasPrefix (ToLower path) (ToLower k) = false)) /\
  ("" ∉ order ->
   (findServiceInMap order path = "" <-> isPathInList order path = false)).
Proof.
  split; [apply findServiceInMap_first|].
  intros Hno.
  destruct (findServiceInMap_first order path)
    as [[Hf He]|[Ht (pre & post & Ho & _)]].
  - rewrite Hf, He. split; reflexivity.
  - split; [|congruence]. intros He. exfalso. apply Hno.
    rewrite Ho, He. apply elem_of_app. right. apply list_elem_of_here.
Qed.

(** *** The registry *)

Lemma AddService_empty (n : Novis) (service : Service) :
  Trim (Path service) "/" = "" -> AddService n service = (n, [], None).
Proof.
  intros Hp. unfold AddService. apply length_pos_false in Hp. by rewrite Hp.
Qed.

Lemma AddService_opts (n : Novis) (service : Service) :
  opts (AddService n service).1.1 = opts n.
Proof.
  unfold AddService.
  destruct (0 <? String.length (Trim (Path service) "/"))%nat; [|reflexivity].
  match goal with |- context [UpdateStorage ?m] =>
    pose proof (UpdateStorage_opts m) as Ho;
    destruct (UpdateStorage m) as [[n2 evs] err] end.
  exact Ho.
Qed.

(** AddService does nothing, and writes nothing to the store, for a path
    that is empty once its slashes are trimmed.  Two services whose
    paths differ only by case or by slashes around them share a key:
    the one added last replaces the other. *)
Theorem AddService_same_key_replaces (n : Novis) (a b : Service) :
  (Trim (Path a) "/" = "" -> AddService n a = (n, [], None)) /\
  (Trim (Path a) "/" <> "" -> Trim (Path b) "/" <> "" ->
   ToLower (Trim (Path a) "/") = ToLower (Trim (Path b) "/") ->
   services (AddService (AddService n a).1.1 b).1.1
   = <[ToLower (Trim (Path b) "/") := b]> (services n)).
Proof.
  split; [apply AddService_empty|].
  intros Ha Hb Hk.
  rewrite (AddService_services _ b Hb), (AddService_services n a Ha), Hk.
  apply insert_insert_eq.
Qed.

(** A service whose path has no slash and is not empty can be taken out
    by the name it was added under: adding it and removing it leaves the
    registry without its key and otherwise as it was. *)
Theorem AddService_then_RemoveService (n : Novis) (s : Service) :
  inCutset "/" (Path s) = false ->
  Path s <> "" ->
  services (RemoveService (AddService n s).1.1 s).1.1
  = delete (ToLower (Path s)) (services n).
Proof.
  intros Hno Hne.
  assert (Ht : Trim (Path s) "/" = Path s) by (by apply Trim_no_slash).
  assert (Hadd : services (AddService n s).1.1 = <[ToLower (Path s) := s]> (services n)).
  { rewrite AddService_services by congruence. by rewrite Ht. }
  unfold RemoveService. rewrite Split_length_pos, (Split_no_slash _ Hno).
  cbn [hd]. rewrite Hadd, lookup_insert_eq, UpdateStorage_services.
  cbn [set_services services]. apply delete_insert_eq.
Qed.

(** PauseService followed by ResumeService under the same name leaves
    the service with the status CHECKING, whatever its status was, and
    neither of them touches the store. *)
Theorem pause_then_resume_gives_CHECKING
    (n n1 : Novis) (service : Service) :
  PauseService n service = Done n1 ->
  exists s,
    services n !! ToLower (hd "" (Split (Path service) "/")) = Some s /\
    storage n1 = storage n /\
    ResumeService n1 service
    = Done (set_services
              (<[ToLower (hd "" (Split (Path service) "/")) := SetStatus s CHECKING]>
                 (services n)) n).
Proof.
  unfold PauseService, ResumeService, setStatusAt. rewrite Split_length_pos.
  destruct (services n !! ToLower (hd "" (Split (Path service) "/"))) as [s|] eqn:Hs;
    [|discriminate].
  intros [= <-]. exists s. split; [reflexivity|]. split; [reflexivity|].
  cbn [set_services services]. rewrite lookup_insert_eq.
  unfold set_services. cbn. rewrite insert_insert_eq. reflexivity.
Qed.

(** *** What every call keeps *)

Lemma keyedByPath_insert (m : gmap string Service) (s : Service) :
  keyedByPath m -> Trim (Path s) "/" <> "" ->
  keyedByPath (<[ToLower (Trim (Path s) "/") := s]> m).
Proof.
  intros Hm Hp k s' Hl. apply lookup_insert_Some in Hl as [[<- <-]|[_ Hl]]; auto.
Qed.

Lemma keyedByPath_delete (m : gmap string Service) (k : string) :
  keyedByPath m -> keyedByPath (delete k m).
Proof.
  intros Hm k' s' Hl. apply lookup_delete_Some in Hl as [_ Hl]. auto.
Qed.

Lemma keyedByPath_status (m : gmap string Service) (k : string) (s : Service)
    (status : ServiceStatus) :
  keyedByPath m -> m !! k = Some s -> keyedByPath (<[k := SetStatus s status]> m).
Proof.
  intros Hm Hs k' s' Hl. apply lookup_insert_Some in Hl as [[<- <-]|[_ Hl]]; auto.
  exact (Hm k s Hs).
Qed.

Lemma kept_UpdateStorage (o : ProxyOptions) (n : Novis) :
  kept o n -> kept o (UpdateStorage n).1.1.
Proof.
  intros [Hk Ho]. split; [by rewrite UpdateStorage_services|].
  by rewrite UpdateStorage_opts.
Qed.

Lemma kept_AddService (o : ProxyOptions) (n : Novis) (service : Service) :
  kept o n -> kept o (AddService n service).1.1.
Proof.
  intros [Hk Ho].
  destruct (decide (Trim (Path service) "/" = "")) as [He|Hne].
  - rewrite AddService_empty by exact He. by split.
  - split; [|by rewrite AddService_opts].
    rewrite AddService_services by exact Hne. by apply keyedByPath_insert.
Qed.

Lemma kept_RemoveService (o : ProxyOptions) (n : Novis) (service : Service) :
  kept o n -> kept o (RemoveService n service).1.1.
Proof.
  intros [Hk Ho]. unfold RemoveService. rewrite Split_length_pos.
  destruct (services n !! ToLower (hd "" (Split (Path service) "/")));
    [|by split].
  apply kept_UpdateStorage. split; [|exact Ho]. by apply keyedByPath_delete.
Qed.

Lemma kept_setStatusAt (o : ProxyOptions) (n n' : Novis) (k : string)
    (status : ServiceStatus) :
  kept o n -> setStatusAt n k status = Done n' -> kept o n'.
Proof.
  intros [Hk Ho]. unfold setStatusAt.
  destruct (services n !! k) as [s|] eqn:Hs; [|discriminate].
  intros [= <-]. split; [|exact Ho]. by apply keyedByPath_status.
Qed.

Lemma kept_loadServices (o : ProxyOptions) (vs : list (string * Service)) :
  forall n, kept o n -> kept o (loadServices vs n).1.1.
Proof.
  induction vs as [|[k v] vs IH]; intros n Hn; [exact Hn|].
  cbn [loadServices]. destruct (url_Parse (Host v)) as [u|e]; [|exact Hn].
  pose proof (kept_AddService o n
                (loadedService v (NewSingleHostReverseProxy u)) Hn) as H1.
  destruct (AddService n (loadedService v (NewSingleHostReverseProxy u)))
    as [[n1 evs1] err1].
  specialize (IH n1 H1). destruct (loadServices vs n1) as [[n2 evs2] err2].
  exact IH.
Qed.

Lemma kept_set_storage (o : ProxyOptions) (r : Redis) (n : Novis) :
  kept o n -> kept o (set_storage r n).
Proof. intros H. exact H. Qed.

Lemma kept_LoadFromStorage (o : ProxyOptions) (order : list string) (n : Novis) :
  kept o n -> kept o (LoadFromStorage order n).1.1.
Proof.
  intros Hn. unfold LoadFromStorage.
  destruct (redis_Get svcKey (storage n)) as [r res].
  pose proof (kept_set_storage o r n Hn) as H0.
  destruct res as [text|[|msg]]; try exact H0.
  destruct (json_Unmarshal text) as [decoded|e]; [|exact H0].
  pose proof (kept_loadServices o (go_range order decoded) _ H0) as H1.
  destruct (loadServices (go_range order decoded) (set_storage r n))
    as [[n1 evs] err].
  exact H1.
Qed.

Lemma kept_healthCheckVisit (o : ProxyOptions) (n : Novis) (k : string) (c : bool) :
  kept o n -> kept o (healthCheckVisit n k c).1.
Proof.
  intros Hn. unfold healthCheckVisit, isServiceAlive.
  destruct (services n !! k) as [s|] eqn:Hs; [|exact Hn].
  destruct (decide (Status s <> PAUSE)); [|exact Hn].
  destruct (decide (Status s <> (if c then UP else DOWN))); [|exact Hn].
  match goal with |- context [UpdateStorage ?m] =>
    assert (Hm : kept o m) end.
  { destruct Hn as [Hk Ho]. split; [|exact Ho]. by apply keyedByPath_status. }
  apply kept_UpdateStorage in Hm.
  match goal with |- context [UpdateStorage ?m] =>
    destruct (UpdateStorage m) as [[n2 evs] err] end.
  destruct err; exact Hm.
Qed.

Lemma kept_healthCheckTick (o : ProxyOptions) (visits : list (string * bool)) :
  forall n, kept o n -> kept o (healthCheckTick visits n).1.
Proof.
  induction visits as [|[k c] visits IH]; intros n Hn; [exact Hn|].
  cbn [healthCheckTick].
  pose proof (kept_healthCheckVisit o n k c Hn) as H1.
  destruct (healthCheckVisit n k c) as [n1 evs1].
  specialize (IH n1 H1). destruct (healthCheckTick visits n1) as [n2 evs2].
  exact IH.
Qed.

Lemma kept_healthCheck (o : ProxyOptions) (ticks : list (list (string * bool))) :
  forall n, kept o n -> kept o (healthCheck ticks n).1.
Proof.
  induction ticks as [|visits ticks IH]; intros n Hn; [exact Hn|].
  cbn [healthCheck].
  pose proof (kept_healthCheckTick o visits n Hn) as H1.
  destruct (healthCheckTick visits n) as [n1 evs1].
  specialize (IH n1 H1). destruct (healthCheck ticks n1) as [n2 evs2].
  exact IH.
Qed.

Lemma kept_discovery (o : ProxyOptions) (n : Novis) (req : Request) :
  kept o n -> kept o (discovery n req).1.1.
Proof.
  intros Hn. unfold discovery.
  assert (Hc : forall first,
    kept o
      (match json_Decode (Body req) with
       | Val s =>
           if (String.length (HealthCheckURL s) =? 0)%nat
           then (n, first ++ [Respond StatusBadRequest "Health check url is not valid"],
                 Some (errors_New "Discovery request health check url is not valid"))
           else
             match url_Parse (Host (SetStatus (setMux s) CHECKING)) with
             | Val sURL =>
                 let '(n1, evs, _) :=
                   AddService n
                     (SetReverseProxy (SetStatus (setMux s) CHECKING)
                        (NewSingleHostReverseProxy sURL)) in
                 (n1, first ++ evs, None)
             | Err e => (n, first ++ [Respond StatusBadRequest ""], Some e)
             end
       | Err e => (n, first ++ [Respond StatusBadRequest ""], Some e)
       end).1.1).
  { intros first. destruct (json_Decode (Body req)) as [s|e]; [|exact Hn].
    destruct (String.length (HealthCheckURL s) =? 0)%nat; [exact Hn|].
    destruct (url_Parse (Host (SetStatus (setMux s) CHECKING))) as [u|e]; [|exact Hn].
    match goal with |- context [AddService n ?x] =>
      pose proof (kept_AddService o n x Hn) as H1;
      destruct (AddService n x) as [[n1 evs] err] end.
    exact H1. }
  destruct (negb (length (removeEmptyStr (Split (URL_Path req) "/")) =? 1)%nat);
    [apply Hc|].
  destruct (negb (String.eqb (ToLower (Method req)) "post")); [exact Hn | apply Hc].
Qed.

Lemma proxyRequest_cases (order : list string) (n n' : Novis) (req : Request)
    (evs : list event) :
  proxyRequest order n req = Done (n', evs) ->
  n' = n \/ n' = (discovery n req).1.1.
Proof.
  unfold proxyRequest.
  destruct (0 <? String.length (Trim (URL_Path req) "/"))%nat;
    [|intros [= <- _]; by left].
  destruct (String.eqb (Trim (URL_Path req) "/") (ToLower (DiscoveryURL (opts n)))).
  - destruct (discovery n req) as [[n1 evs1] err]. intros [= <- _]. by right.
  - destruct (services n !! findServiceInMap order (Trim (URL_Path req) "/")) as [s|];
      [|intros [= <- _]; by left].
    destruct (decide (Status s <> UP)); [intros [= <- _]; by left|].
    destruct (url_Parse (Host s)); [|intros [= <- _]; by left].
    destruct (reverseProxy s); [intros [= <- _]; by left | discriminate].
Qed.

(** Every call on a gateway keeps the agreement of keys and paths: each
    service sits under its own slash-trimmed, lower-cased path, which is
    not empty.  No call changes the options. *)
Theorem call_keeps_keyedByPath (o : ProxyOptions) (n n' : Novis) :
  keyedByPath (services n) -> opts n = o ->
  call n n' ->
  keyedByPath (services n') /\ opts n' = o.
Proof.
  intros Hk Ho Hcall. assert (Hn : kept o n) by (by split).
  destruct Hcall as [service|service|service n' Hp|service n' Hr| |order|ticks
                    |order req n' evs Hreq].
  - by apply kept_AddService.
  - by apply kept_RemoveService.
  - unfold PauseService in Hp. rewrite Split_length_pos in Hp.
    exact (kept_setStatusAt o n n' _ _ Hn Hp).
  - unfold ResumeService in Hr. rewrite Split_length_pos in Hr.
    exact (kept_setStatusAt o n n' _ _ Hn Hr).
  - by apply kept_UpdateStorage.
  - by apply kept_LoadFromStorage.
  - by apply kept_healthCheck.
  - apply proxyRequest_cases in Hreq as [->| ->]; [exact Hn|].
    by apply kept_discovery.
Qed.

(** Hence every gateway that New builds, and every gateway reached from
    it by calls, has its keys in agreement with its paths.  As
    lower-casing maps no other text to the empty one, the empty key,
    which is a prefix of every path, is never registered. *)
Theorem New_then_calls_keyedByPath
    (o : ProxyOptions) (store : Redis) (order : list string) (n : Novis) :
  (forall t, ToLower t = "" -> t = "") ->
  rtc call (New o store order).1 n ->
  keyedByPath (services n) /\ opts n = o /\ services n !! "" = None.
Proof.
  intros Hlow Hr.
  assert (H0 : kept o (New o store order).1).
  { unfold New.
    pose proof (kept_LoadFromStorage o order (emptyNovis o store)) as H1.
    destruct (LoadFromStorage order (emptyNovis o store)) as [[n1 evs1] err1].
    assert (Hn1 : kept o n1).
    { apply H1. split; [|reflexivity]. intros k s Hl.
      cbn in Hl. by rewrite lookup_empty in Hl. }
    pose proof (kept_UpdateStorage o n1 Hn1) as H2.
    destruct (UpdateStorage n1) as [[n2 evs2] err2]. exact H2. }
  assert (Hn : kept o n).
  { revert H0. induction Hr as [|x y z Hxy _ IH]; [auto|].
    intros Hx. apply IH. destruct Hx as [Hk Ho].
    exact (call_keeps_keyedByPath o x y Hk Ho Hxy). }
  destruct Hn as [Hk Ho]. split; [exact Hk|]. split; [exact Ho|].
  destruct (services n !! "") as [s|] eqn:Hs; [|reflexivity].
  destruct (Hk "" s Hs) as [Hne Heq]. destruct Hne. apply Hlow. by symmetry.
Qed.

(** *** The health check over any number of ticks *)

Lemma statusOnly_refl (m : gmap string Service) : statusOnly m m.
Proof.
  intros k. destruct (m !! k) as [s|] eqn:E; [right | by left].
  exists s, s. rewrite SetStatus_same. auto.
Qed.

Lemma statusOnly_trans (m1 m2 m3 : gmap string Service) :
  statusOnly m1 m2 -> statusOnly m2 m3 -> statusOnly m1 m3.
Proof.
  intros H12 H23 k.
  destruct (H12 k) as [[Ha Hb]|(s1 & s2 & Ha & Hb & Hc & Hd)];
    destruct (H23 k) as [[Hb' Hc']|(s2' & s3 & Hb' & Hc' & He & Hf)];
    try congruence.
  - by left.
  - right. assert (s2' = s2) by congruence. subst s2'.
    exists s1, s3. split; [exact Ha|]. split; [exact Hc'|]. split.
    + rewrite He. rewrite Hc at 1. reflexivity.
    + intros Hp. specialize (Hd Hp). subst s2. apply Hf. exact Hp.
Qed.

Lemma healthCheckVisit_statusOnly (n : Novis) (k : string) (c : bool) :
  statusOnly (services n) (services (healthCheckVisit n k c).1).
Proof.
  unfold healthCheckVisit, isServiceAlive.
  destruct (services n !! k) as [s|] eqn:Hs; [|apply statusOnly_refl].
  destruct (decide (Status s <> PAUSE)) as [Hnp|]; [|apply statusOnly_refl].
  destruct (decide (Status s <> (if c then UP else DOWN))); [|apply statusOnly_refl].
  match goal with |- context [UpdateStorage ?m] =>
    pose proof (UpdateStorage_services m) as Hm;
    destruct (UpdateStorage m) as [[n2 evs] err] end.
  cbn [fst snd set_services services] in Hm.
  assert (Hgoal : statusOnly (services n) (services n2)).
  { rewrite Hm. intros k'. destruct (decide (k = k')) as [<-|Hne].
    - right. exists s, (SetStatus s (if c then UP else DOWN)).
      rewrite lookup_insert_eq. split; [exact Hs|]. split; [reflexivity|].
      split; [reflexivity | intros Hp; contradiction].
    - rewrite lookup_insert_ne by exact Hne. apply statusOnly_refl. }
  destruct err; exact Hgoal.
Qed.

Lemma healthCheckTick_statusOnly (visits : list (string * bool)) :
  forall n, statusOnly (services n) (services (healthCheckTick visits n).1).
Proof.
  induction visits as [|[k c] visits IH]; intros n; [apply statusOnly_refl|].
  cbn [healthCheckTick].
  pose proof (healthCheckVisit_statusOnly n k c) as H1.
  destruct (healthCheckVisit n k c) as [n1 evs1].
  specialize (IH n1). destruct (healthCheckTick visits n1) as [n2 evs2].
  exact (statusOnly_trans _ _ _ H1 IH).
Qed.

(** The health check, over any number of ticks and in any order of
    visit, neither adds nor removes a service: under each key the
    service keeps its host, path, healthCheckURL and reverse proxy, and
    a service that is paused keeps its status too.  A service that is
    DOWN stays registered. *)
Theorem healthCheck_changes_status_only
    (ticks : list (list (string * bool))) (n : Novis) :
  dom (services (healthCheck ticks n).1) = dom (services n) /\
  forall k,
    (services n !! k = None /\ services (healthCheck ticks n).1 !! k = None) \/
    (exists s s',
       services n !! k = Some s /\
       services (healthCheck ticks n).1 !! k = Some s' /\
       s' = SetStatus s (Status s') /\
       (Status s = PAUSE -> s' = s)).
Proof.
  assert (H : statusOnly (services n) (services (healthCheck ticks n).1)).
  { revert n. induction ticks as [|visits ticks IH]; intros n;
      [apply statusOnly_refl|].
    cbn [healthCheck].
    pose proof (healthCheckTick_statusOnly visits n) as H1.
    destruct (healthCheckTick visits n) as [n1 evs1].
    specialize (IH n1). destruct (healthCheck ticks n1) as [n2 evs2].
    exact (statusOnly_trans _ _ _ H1 IH). }
  split; [|exact H].
  apply set_eq. intros k. rewrite !elem_of_dom.
  destruct (H k) as [[Ha Hb]|(s & s' & Ha & Hb & _)]; rewrite Ha, Hb; split;
    intros [x Hx]; try discriminate; eauto.
Qed.

(** A tick in which every probe finds what the registry already says
    (UP for a service that answers, DOWN for one that does not) and
    paused services are skipped writes nothing: the gateway and the
    store are as before, and the only events are connection attempts. *)
Theorem healthCheckTick_steady (visits : list (string * bool)) (n : Novis) :
  (forall (k : string) (c : bool) (s : Service),
     (k, c) ∈ visits -> services n !! k = Some s ->
     Status s = PAUSE \/ Status s = (if c then UP else DOWN)) ->
  (healthCheckTick visits n).1 = n /\
  Forall (fun ev => exists address,
            ev = DialTimeout "tcp" address (3 * Second)%Z)
    (healthCheckTick visits n).2.
Proof.
  induction visits as [|[k c] visits IH]; intros Hst; [by split|].
  cbn [healthCheckTick].
  assert (Hv : (healthCheckVisit n k c).1 = n /\
               Forall (fun ev => exists address,
                         ev = DialTimeout "tcp" address (3 * Second)%Z)
                 (healthCheckVisit n k c).2).
  { unfold healthCheckVisit, isServiceAlive.
    destruct (services n !! k) as [s|] eqn:Hs; [|by split].
    destruct (decide (Status s <> PAUSE)) as [Hnp|]; [|by split].
    destruct (Hst k c s (list_elem_of_here (k, c) visits) Hs) as [Hp|Hsame];
      [contradiction|].
    destruct (decide (Status s <> (if c then UP else DOWN))); [contradiction|].
    split; [reflexivity|]. apply Forall_cons. split; [eauto | apply Forall_nil_2]. }
  destruct (healthCheckVisit n k c) as [n1 evs1]. destruct Hv as [Hn1 Hev1].
  cbn in Hn1. subst n1.
  destruct IH as [Hn2 Hev2].
  { intros k' c' s' Hin. apply Hst. by apply list_elem_of_further. }
  destruct (healthCheckTick visits n) as [n2 evs2]. cbn in *.
  split; [exact Hn2 | by apply Forall_app].
Qed.

(** *** Loading the snapshot *)

(** Whatever the store answers, LoadFromStorage removes nothing: every
    key registered before is registered after. *)
Lemma loadServices_keeps_keys (vs : list (string * Service)) :
  forall (n : Novis) (k : string),
    is_Some (services n !! k) -> is_Some (services (loadServices vs n).1.1 !! k).
Proof.
  induction vs as [|[k0 v] vs IH]; intros n k Hk; [exact Hk|].
  cbn [loadServices]. destruct (url_Parse (Host v)) as [u|e]; [|exact Hk].
  assert (H1 : is_Some (services (AddService n
                 (loadedService v (NewSingleHostReverseProxy u))).1.1 !! k)).
  { destruct (decide (Trim (Path (loadedService v (NewSingleHostReverseProxy u))) "/" = ""))
      as [He|Hne].
    - by rewrite AddService_empty.
    - rewrite AddService_services by exact Hne.
      rewrite lookup_insert_is_Some. destruct (decide
        (ToLower (Trim (Path (loadedService v (NewSingleHostReverseProxy u))) "/") = k));
        auto. }
  destruct (AddService n (loadedService v (NewSingleHostReverseProxy u)))
    as [[n1 evs1] err1].
  specialize (IH n1 k H1). destruct (loadServices vs n1) as [[n2 evs2] err2].
  exact IH.
Qed.

Theorem LoadFromStorage_keeps_keys (order : list string) (n : Novis) (k : string) :
  is_Some (services n !! k) ->
  is_Some (services (LoadFromStorage order n).1.1 !! k).
Proof.
  intros Hk. unfold LoadFromStorage.
  destruct (redis_Get svcKey (storage n)) as [r res].
  destruct res as [text|[|msg]]; try exact Hk.
  destruct (json_Unmarshal text) as [decoded|e]; [|exact Hk].
  pose proof (loadServices_keeps_keys (go_range order decoded)
                (set_storage r n) k Hk) as H1.
  destruct (loadServices (go_range order decoded) (set_storage r n))
    as [[n1 evs] err].
  exact H1.
Qed.

(** When the store has no snapshot (it answers redis.Nil) the load is a
    success that changes no service; any other failure of the read, and
    a snapshot that does not decode, is returned as the error, again
    with the registry as it was. *)
Theorem LoadFromStorage_without_snapshot
    (order : list string) (n : Novis) (r : Redis) (res : result string) :
  redis_Get svcKey (storage n) = (r, res) ->
  (res = Err redis_Nil ->
   LoadFromStorage order n = (set_storage r n, [RedisGet svcKey], None)) /\
  (forall msg, res = Err (errors_New msg) ->
   LoadFromStorage order n
   = (set_storage r n, [RedisGet svcKey], Some (errors_New msg))) /\
  (forall text e, res = Val text -> json_Unmarshal text = Err e ->
   LoadFromStorage order n = (set_storage r n, [RedisGet svcKey], Some e)).
Proof.
  intros Hget. unfold LoadFromStorage. rewrite Hget.
  split; [|split].
  - intros ->. reflexivity.
  - intros msg ->. reflexivity.
  - intros text e -> He. rewrite He. reflexivity.
Qed.

(** *** Events of a registration *)

Lemma UpdateStorage_events (n : Novis) :
  Forall (fun ev => exists value, ev = RedisSet svcKey value) (UpdateStorage n).1.2.
Proof.
  unfold UpdateStorage. destruct (json_Marshal (services n)) as [text|e];
    [|apply Forall_nil_2].
  destruct (redis_Set svcKey text (storage n)). cbn.
  apply Forall_cons. split; [eauto | apply Forall_nil_2].
Qed.

Lemma AddService_events (n : Novis) (service : Service) :
  Forall (fun ev => exists value, ev = RedisSet svcKey value)
    (AddService n service).1.2.
Proof.
  unfold AddService.
  destruct (0 <? String.length (Trim (Path service) "/"))%nat; [|apply Forall_nil_2].
  match goal with |- context [UpdateStorage ?m] =>
    pose proof (UpdateStorage_events m) as He;
    destruct (UpdateStorage m) as [[n2 evs] err] end.
  exact He.
Qed.

(** *** The discovery handler, case by case *)

(** Whenever discovery returns an error it has registered nothing and
    changed nothing, and what it has written to the client is one or
    two responses with a status of 400, 404 or 405. *)
Theorem discovery_error_changes_nothing (n : Novis) (req : Request) (e : goerror) :
  (discovery n req).2 = Some e ->
  (discovery n req).1.1 = n /\
  (discovery n req).1.2 <> [] /\
  Forall (fun ev => exists msg,
            ev = Respond StatusBadRequest msg \/
            ev = Respond StatusNotFound msg \/
            ev = Respond StatusMethodNotAllowed msg)
    (discovery n req).1.2.
Proof.
  unfold discovery.
  destruct (json_Decode (Body req)) as [s|e0].
  2:{ destruct (negb (length (removeEmptyStr (Split (URL_Path req) "/")) =? 1)%nat);
        [|destruct (negb (String.eqb (ToLower (Method req)) "post"))];
        intros _; cbn; (split; [reflexivity|]); (split; [discriminate|]);
        repeat (apply Forall_cons; split; [eauto|]); apply Forall_nil_2. }
  destruct (String.length (HealthCheckURL s) =? 0)%nat.
  { destruct (negb (length (removeEmptyStr (Split (URL_Path req) "/")) =? 1)%nat);
      [|destruct (negb (String.eqb (ToLower (Method req)) "post"))];
      intros _; cbn; (split; [reflexivity|]); (split; [discriminate|]);
      repeat (apply Forall_cons; split; [eauto|]); apply Forall_nil_2. }
  destruct (url_Parse (Host (SetStatus (setMux s) CHECKING))) as [u|e0].
  2:{ destruct (negb (length (removeEmptyStr (Split (URL_Path req) "/")) =? 1)%nat);
        [|destruct (negb (String.eqb (ToLower (Method req)) "post"))];
        intros _; cbn; (split; [reflexivity|]); (split; [discriminate|]);
        repeat (apply Forall_cons; split; [eauto|]); apply Forall_nil_2. }
  match goal with |- context [AddService n ?x] =>
    destruct (AddService n x) as [[n1 evs] err] end.
  destruct (negb (length (removeEmptyStr (Split (URL_Path req) "/")) =? 1)%nat);
    [discriminate|].
  destruct (negb (String.eqb (ToLower (Method req)) "post")); [|discriminate].
  intros _. cbn. split; [reflexivity|]. split; [discriminate|].
  apply Forall_cons. split; [eauto | apply Forall_nil_2].
Qed.

(** The discovery handler writes responses and store commands and
    nothing else: it forwards nothing. *)
Lemma discovery_events (n : Novis) (req : Request) :
  Forall (fun ev => (exists status msg, ev = Respond status msg) \/
                    (exists value, ev = RedisSet svcKey value))
    (discovery n req).1.2.
Proof.
  unfold discovery.
  destruct (json_Decode (Body req)) as [s|e0].
  2:{ destruct (negb (length (removeEmptyStr (Split (URL_Path req) "/")) =? 1)%nat);
        [|destruct (negb (String.eqb (ToLower (Method req)) "post"))]; cbn;
        repeat (apply Forall_cons; split; [eauto|]); apply Forall_nil_2. }
  destruct (String.length (HealthCheckURL s) =? 0)%nat.
  { destruct (negb (length (removeEmptyStr (Split (URL_Path req) "/")) =? 1)%nat);
      [|destruct (negb (String.eqb (ToLower (Method req)) "post"))]; cbn;
      repeat (apply Forall_cons; split; [eauto|]); apply Forall_nil_2. }
  destruct (url_Parse (Host (SetStatus (setMux s) CHECKING))) as [u|e0].
  2:{ destruct (negb (length (removeEmptyStr (Split (URL_Path req) "/")) =? 1)%nat);
        [|destruct (negb (String.eqb (ToLower (Method req)) "post"))]; cbn;
        repeat (apply Forall_cons; split; [eauto|]); apply Forall_nil_2. }
  match goal with |- context [AddService n ?x] =>
    pose proof (AddService_events n x) as Hev;
    destruct (AddService n x) as [[n1 evs] err] end.
  cbn in Hev.
  assert (Hev' : Forall (fun ev => (exists status msg, ev = Respond status msg) \/
                                   (exists value, ev = RedisSet svcKey value)) evs).
  { eapply Forall_impl; [exact Hev|]. intros ev Hx. by right. }
  destruct (negb (length (removeEmptyStr (Split (URL_Path req) "/")) =? 1)%nat);
    [|destruct (negb (String.eqb (ToLower (Method req)) "post"))]; cbn;
    try exact Hev';
    repeat (apply Forall_cons; split; [eauto|]); try exact Hev'; apply Forall_nil_2.
Qed.

(** A POST with one path segment whose body decodes, names a
    healthCheckURL and a host that parses is accepted.  If its path is
    not empty once trimmed, the service is registered under that path,
    lower-cased, with the status CHECKING whatever status the body
    carried, with a lock and with the reverse proxy of its parsed host.
    If the path trims to nothing the request is accepted all the same
    and nothing is registered.  In both cases the handler writes no
    response of its own. *)
Theorem discovery_accepts (n : Novis) (req : Request) (s : Service) (u : URL) :
  length (removeEmptyStr (Split (URL_Path req) "/")) = 1%nat ->
  ToLower (Method req) = "post" ->
  json_Decode (Body req) = Val s ->
  HealthCheckURL s <> "" ->
  url_Parse (Host s) = Val u ->
  (discovery n req).2 = None /\
  Forall (fun ev => exists value, ev = RedisSet svcKey value) (discovery n req).1.2 /\
  (Trim (Path s) "/" <> "" ->
   services (discovery n req).1.1
   = <[ToLower (Trim (Path s) "/") :=
         {| Host := Host s; Path := Path s; Status := CHECKING;
            HealthCheckURL := HealthCheckURL s;
            reverseProxy := Some (NewSingleHostReverseProxy u);
            mux := true |}]> (services n)) /\
  (Trim (Path s) "/" = "" -> discovery n req = (n, [], None)).
Proof.
  intros Hseg Hm Hdec Hhc Hurl. unfold discovery.
  apply Nat.eqb_eq in Hseg. apply String.eqb_eq in Hm.
  rewrite Hseg, Hm, Hdec. cbn [negb].
  destruct (HealthCheckURL s) as [|c hc] eqn:Ehc; [congruence|].
  cbn [String.length Nat.eqb].
  change (Host (SetStatus (setMux s) CHECKING)) with (Host s). rewrite Hurl.
  set (s1 := SetReverseProxy (SetStatus (setMux s) CHECKING)
               (NewSingleHostReverseProxy u)).
  pose proof (AddService_events n s1) as Hev.
  pose proof (AddService_services n s1) as Hins.
  pose proof (AddService_empty n s1) as Hemp.
  change (Path s1) with (Path s) in Hins, Hemp.
  destruct (AddService n s1) as [[n1 evs] err] eqn:Eadd. cbn in *.
  split; [reflexivity|]. split; [exact Hev|]. split.
  - intros Hp. rewrite (Hins Hp). unfold s1, SetReverseProxy, SetStatus, setMux.
    cbn. rewrite Ehc. reflexivity.
  - intros Hp. specialize (Hemp Hp). congruence.
Qed.

(** *** The router, case by case *)

(** A request outside the discovery path never changes the gateway, and
    the router answers it exactly once: with one response, preceded by a
    log line in the case of 502, or by handing it to one reverse
    proxy. *)
Theorem proxyRequest_answers_once
    (order : list string) (n n' : Novis) (req : Request) (evs : list event) :
  Trim (URL_Path req) "/" <> ToLower (DiscoveryURL (opts n)) ->
  proxyRequest order n req = Done (n', evs) ->
  n' = n /\
  (evs = [Respond StatusOK ""] \/
   evs = [Respond StatusNotFound ""] \/
   (exists e, evs = [LogWarn e; Respond StatusBadGateway ""]) \/
   (exists rp out, evs = [ServeHTTP rp out])).
Proof.
  intros Hd. apply String.eqb_neq in Hd. unfold proxyRequest. rewrite Hd.
  destruct (0 <? String.length (Trim (URL_Path req) "/"))%nat;
    [|intros [= <- <-]; auto].
  destruct (services n !! findServiceInMap order (Trim (URL_Path req) "/")) as [s|];
    [|intros [= <- <-]; auto].
  destruct (decide (Status s <> UP)); [intros [= <- <-]; auto|].
  destruct (url_Parse (Host s)) as [u|e]; [|intros [= <- <-]; eauto 6].
  destruct (reverseProxy s); [intros [= <- <-]; eauto 8 | discriminate].
Qed.

(** Whatever the request, the router forwards only to a service that is
    registered under the key it resolved, is UP, and whose host parses:
    the reverse proxy used is that service's, the host of the outbound
    request is the host of that URL, and method and body are those of
    the inbound request. *)
Theorem proxyRequest_forwards_only_to_UP
    (order : list string) (n n' : Novis) (req out : Request)
    (evs : list event) (rp : ReverseProxy) :
  proxyRequest order n req = Done (n', evs) ->
  ServeHTTP rp out ∈ evs ->
  exists s u,
    services n !! findServiceInMap order (Trim (URL_Path req) "/") = Some s /\
    Status s = UP /\
    url_Parse (Host s) = Val u /\
    reverseProxy s = Some rp /\
    Req_Host out = URL_Host u /\ Method out = Method req /\ Body out = Body req /\
    n' = n /\ evs = [ServeHTTP rp out].
Proof.
  unfold proxyRequest.
  destruct (0 <? String.length (Trim (URL_Path req) "/"))%nat.
  2:{ intros [= <- <-] Hin. apply list_elem_of_singleton in Hin. discriminate. }
  destruct (String.eqb (Trim (URL_Path req) "/") (ToLower (DiscoveryURL (opts n)))).
  - pose proof (discovery_events n req) as Hall.
    destruct (discovery n req) as [[n1 evs1] err]. intros [= <- <-] Hin.
    exfalso. cbn in Hall. rewrite Forall_forall in Hall.
    destruct (Hall _ Hin) as [(st & msg & H)|(v & H)]; discriminate.
  - destruct (services n !! findServiceInMap order (Trim (URL_Path req) "/")) as [s|] eqn:Hs.
    2:{ intros [= <- <-] Hin. apply list_elem_of_singleton in Hin. discriminate. }
    destruct (decide (Status s <> UP)) as [|Hup].
    { intros [= <- <-] Hin. apply list_elem_of_singleton in Hin. discriminate. }
    apply dec_stable in Hup.
    destruct (url_Parse (Host s)) as [u|e] eqn:Hu.
    2:{ intros [= <- <-] Hin. apply elem_of_cons in Hin as [Hin|Hin]; [discriminate|].
        apply list_elem_of_singleton in Hin. discriminate. }
    destruct (reverseProxy s) as [rp0|] eqn:Hrp; [|discriminate].
    intros [= <- <-] Hin. apply list_elem_of_singleton in Hin.
    injection Hin as -> ->. exists s, u. cbn. repeat split; auto.
Qed.

(** The hand-over [s.GetReverseProxy().ServeHTTP(res, req)] is made on
    a nil reverse proxy, which is a nil pointer dereference, in one case
    only: the request is outside the discovery path and resolves to a
    service that is UP, whose host parses, and that has no reverse
    proxy.  What ServeHTTP of a reverse proxy that exists does with the
    request is not part of the package and not described here: such a
    hand-over is the event [ServeHTTP]. *)
Theorem proxyRequest_nil_proxy_iff
    (order : list string) (n : Novis) (req : Request) :
  proxyRequest order n req = Panic nil_dereference <->
  (Trim (URL_Path req) "/" <> "" /\
   Trim (URL_Path req) "/" <> ToLower (DiscoveryURL (opts n)) /\
   exists s u,
     services n !! findServiceInMap order (Trim (URL_Path req) "/") = Some s /\
     Status s = UP /\ url_Parse (Host s) = Val u /\ reverseProxy s = None).
Proof.
  unfold proxyRequest. split.
  - intros H.
    destruct (0 <? String.length (Trim (URL_Path req) "/"))%nat eqn:Hl; [|discriminate].
    apply length_pos_iff in Hl. split; [exact Hl|].
    destruct (String.eqb (Trim (URL_Path req) "/") (ToLower (DiscoveryURL (opts n))))
      eqn:Hd.
    { destruct (discovery n req) as [[n1 evs] err]. discriminate. }
    apply String.eqb_neq in Hd. split; [exact Hd|].
    destruct (services n !! findServiceInMap order (Trim (URL_Path req) "/")) as [s|];
      [|discriminate].
    destruct (decide (Status s <> UP)) as [|Hup]; [discriminate|].
    apply dec_stable in Hup.
    destruct (url_Parse (Host s)) as [u|e] eqn:Hu; [|discriminate].
    destruct (reverseProxy s) eqn:Hrp; [discriminate|].
    exists s, u. auto.
  - intros (Hl & Hd & s & u & Hs & Hup & Hu & Hrp).
    apply length_pos_iff in Hl. apply String.eqb_neq in Hd.
    rewrite Hl, Hd, Hs, Hu, Hrp.
    destruct (decide (Status s <> UP)); [contradiction | reflexivity].
Qed.

(** *** From registration to traffic *)

Lemma discovery_opts (n : Novis) (req : Request) :
  opts (discovery n req).1.1 = opts n.
Proof.
  unfold discovery.
  destruct (json_Decode (Body req)) as [s|e0].
  2:{ destruct (negb (length (removeEmptyStr (Split (URL_Path req) "/")) =? 1)%nat);
        [|destruct (negb (String.eqb (ToLower (Method req)) "post"))]; reflexivity. }
  destruct (String.length (HealthCheckURL s) =? 0)%nat.
  { destruct (negb (length (removeEmptyStr (Split (URL_Path req) "/")) =? 1)%nat);
      [|destruct (negb (String.eqb (ToLower (Method req)) "post"))]; reflexivity. }
  destruct (url_Parse (Host (SetStatus (setMux s) CHECKING))) as [u|e0].
  2:{ destruct (negb (length (removeEmptyStr (Split (URL_Path req) "/")) =? 1)%nat);
        [|destruct (negb (String.eqb (ToLower (Method req)) "post"))]; reflexivity. }
  match goal with |- context [AddService n ?x] =>
    pose proof (AddService_opts n x) as Ho;
    destruct (AddService n x) as [[n1 evs] err] end.
  destruct (negb (length (removeEmptyStr (Split (URL_Path req) "/")) =? 1)%nat);
    [|destruct (negb (String.eqb (ToLower (Method req)) "post"))];
    first [exact Ho | reflexivity].
Qed.

Lemma healthCheckTick_opts (visits : list (string * bool)) :
  forall n, opts (healthCheckTick visits n).1 = opts n.
Proof.
  induction visits as [|[k c] visits IH]; intros n; [reflexivity|].
  cbn [healthCheckTick].
  assert (H1 : opts (healthCheckVisit n k c).1 = opts n).
  { unfold healthCheckVisit, isServiceAlive.
    destruct (services n !! k) as [s|]; [|reflexivity].
    destruct (decide (Status s <> PAUSE)); [|reflexivity].
    destruct (decide (Status s <> (if c then UP else DOWN))); [|reflexivity].
    match goal with |- context [UpdateStorage ?m] =>
      pose proof (UpdateStorage_opts m) as Ho;
      destruct (UpdateStorage m) as [[n2 evs] err] end.
    destruct err; exact Ho. }
  destruct (healthCheckVisit n k c) as [n1 evs1].
  specialize (IH n1). destruct (healthCheckTick visits n1) as [n2 evs2].
  cbn in *. congruence.
Qed.

Theorem registered_service_waits_for_health_check
    (n : Novis) (reg req : Request) (s : Service) (u : URL)
    (order : list string) (pre post : list (string * bool)) (rest : string) :
  length (removeEmptyStr (Split (URL_Path reg) "/")) = 1%nat ->
  ToLower (Method reg) = "post" ->
  json_Decode (Body reg) = Val s ->
  HealthCheckURL s <> "" ->
  url_Parse (Host s) = Val u ->
  Trim (Path s) "/" <> "" ->
  Trim (URL_Path req) "/" <> "" ->
  Trim (URL_Path req) "/" <> ToLower (DiscoveryURL (opts n)) ->
  findServiceInMap order (Trim (URL_Path req) "/") = ToLower (Trim (Path s) "/") ->
  ToLower (Trim (Path s) "/") ∉ pre.*1 ->
  ToLower (Trim (Path s) "/") ∉ post.*1 ->
  URL_Path req = (("/" ++ Path s) ++ rest)%string ->
  let n1 := (discovery n reg).1.1 in
  let n2 := (healthCheckTick (pre ++ (ToLower (Trim (Path s) "/"), true) :: post) n1).1 in
  proxyRequest order n1 req = Done (n1, [Respond StatusNotFound ""]) /\
  proxyRequest order n2 req
  = Done (n2, [ServeHTTP (NewSingleHostReverseProxy u)
                 {| Method := Method req;
                    URL_Path := rest;
                    RequestURI := Replace1 (RequestURI req) ("/" ++ Path s) "";
                    Req_Host := URL_Host u;
                    Body := Body req |}]).
Proof.
  intros Hseg Hm Hdec Hhc Hurl Hp Hne Hd Hfind Hpre Hpost Hpath n1 n2.
  set (key := ToLower (Trim (Path s) "/")) in *.
  set (s1 := {| Host := Host s; Path := Path s; Status := CHECKING;
                HealthCheckURL := HealthCheckURL s;
                reverseProxy := Some (NewSingleHostReverseProxy u);
                mux := true |}).
  destruct (discovery_accepts n reg s u Hseg Hm Hdec Hhc Hurl) as (_ & _ & Hins & _).
  specialize (Hins Hp). fold key s1 n1 in Hins.
  assert (Ho1 : opts n1 = opts n) by apply discovery_opts.
  assert (Hk1 : services n1 !! key = Some s1)
    by (rewrite Hins; apply lookup_insert_eq).
  assert (Ho2 : opts n2 = opts n)
    by (unfold n2; rewrite healthCheckTick_opts; exact Ho1).
  assert (Hk2 : services n2 !! key = Some (SetStatus s1 UP)).
  { unfold n2. rewrite healthCheckTick_app. cbn [fst].
    pose proof (healthCheckTick_other pre n1 key Hpre) as Hb. rewrite Hk1 in Hb.
    cbn [healthCheckTick].
    destruct (healthCheckVisit_registered _ key true s1 Hb) as [_ Hv].
    destruct Hv as [Hv _]; [discriminate|].
    destruct (healthCheckVisit (healthCheckTick pre n1).1 key true) as [n3 evs3].
    pose proof (healthCheckTick_other post n3 key Hpost) as Ha.
    destruct (healthCheckTick post n3) as [n4 evs4]. cbn in *. congruence. }
  apply length_pos_iff in Hne. apply String.eqb_neq in Hd.
  split; unfold proxyRequest.
  - rewrite Hne, Ho1, Hd, Hfind, Hk1. reflexivity.
  - rewrite Hne, Ho2, Hd, Hfind, Hk2.
    change (Status (SetStatus s1 UP)) with UP.
    destruct (decide (UP <> UP)) as [Hx|_]; [by destruct Hx|].
    change (Host (SetStatus s1 UP)) with (Host s). rewrite Hurl.
    change (Path (SetStatus s1 UP)) with (Path s).
    change (reverseProxy (SetStatus s1 UP))
      with (Some (NewSingleHostReverseProxy u)).
    cbv beta iota. rewrite Hpath at 1. rewrite Replace1_leading. reflexivity.
Qed.

(** *** Building a gateway from a configuration *)

Lemma initialServices_bad_host (l : list Service) :
  forall acc c e,
    c ∈ l -> url_Parse (Host c) = Err e ->
    exists e', initialServices l acc = Err e'.
Proof.
  induction l as [|c0 l IH]; intros acc c e Hin He; [by apply elem_of_nil in Hin|].
  cbn [initialServices].
  destruct (url_Parse (Host c0)) as [u0|e0] eqn:E0; [|eauto].
  apply elem_of_cons in Hin as [->|Hin]; [congruence|].
  exact (IH _ c e Hin He).
Qed.

Lemma initialServices_run (l : list Service) :
  forall acc,
    (forall c, c ∈ l -> exists u, url_Parse (Host c) = Val u) ->
    exists m,
      initialServices l acc = Val m /\
      (forall k s, m !! k = Some s ->
         acc !! k = Some s \/
         exists c u, c ∈ l /\ url_Parse (Host c) = Val u /\
                     k = Trim (Path c) "/" /\
                     s = {| Host := Host c; Path := Path c; Status := CHECKING;
                            HealthCheckURL := HealthCheckURL c;
                            reverseProxy := Some (NewSingleHostReverseProxy u);
                            mux := false |}) /\
      (forall k, is_Some (acc !! k) -> is_Some (m !! k)) /\
      (forall c, c ∈ l -> is_Some (m !! Trim (Path c) "/")).
Proof.
  induction l as [|c0 l IH]; intros acc Hok.
  - exists acc. repeat split; auto. intros c Hin. by apply elem_of_nil in Hin.
  - destruct (Hok c0 (list_elem_of_here c0 l)) as [u0 Hu0].
    cbn [initialServices]. rewrite Hu0.
    edestruct IH as (m & Hm & Hfrom & Hkeep & Hall).
    { intros c Hin. apply Hok. by apply list_elem_of_further. }
    exists m. split; [exact Hm|]. split; [|split].
    + intros k s Hl. destruct (Hfrom k s Hl) as [Hold|(c & u & Hin & ? & ? & ?)].
      * apply lookup_insert_Some in Hold as [[<- <-]|[_ Hold]]; [|by left].
        right. exists c0, u0. split; [apply list_elem_of_here | auto].
      * right. exists c, u. split; [by apply list_elem_of_further | auto].
    + intros k Hk. apply Hkeep. rewrite lookup_insert_is_Some.
      destruct (decide (Trim (Path c0) "/" = k)); auto.
    + intros c Hin. apply elem_of_cons in Hin as [->|Hin]; [|by apply Hall].
      apply Hkeep. rewrite lookup_insert_eq. eauto.
Qed.

(** One host in the configuration that does not parse, and
    NewFromConfig returns an error instead of a gateway: it has read
    and written nothing in the store. *)
Theorem NewFromConfig_bad_host
    (yc : Configuration) (store : Redis) (order : list string)
    (c : Service) (e : goerror) :
  c ∈ Server_Services yc ->
  url_Parse (Host c) = Err e ->
  exists e', NewFromConfig yc store order = Err e'.
Proof.
  intros Hin He. unfold NewFromConfig.
  destruct (initialServices_bad_host (Server_Services yc) ∅ c e Hin He) as [e' ->].
  eauto.
Qed.

(** With hosts that all parse and a store that holds no snapshot,
    NewFromConfig builds a gateway whose registry is the configured
    services: each sits under its slash-trimmed path as the file spells
    it (not lower-cased, possibly empty), with the status CHECKING, the
    reverse proxy of its host and no lock; the timeout is the
    configured duration times [time.Second], as 64-bit multiplication
    gives it. *)
Theorem NewFromConfig_seeds_registry
    (yc : Configuration) (store r : Redis) (order : list string) :
  (forall c, c ∈ Server_Services yc -> exists u, url_Parse (Host c) = Val u) ->
  redis_Get svcKey store = (r, Err redis_Nil) ->
  exists n evs,
    NewFromConfig yc store order = Val (n, evs, None) /\
    opts n = {| Timeout := wrap64 (Server_Timeout yc * Second);
                DiscoveryURL := Server_Discovery_Path yc |} /\
    (forall c, c ∈ Server_Services yc ->
       is_Some (services n !! Trim (Path c) "/")) /\
    (forall k s, services n !! k = Some s ->
       exists c u, c ∈ Server_Services yc /\ url_Parse (Host c) = Val u /\
                   k = Trim (Path c) "/" /\
                   s = {| Host := Host c; Path := Path c; Status := CHECKING;
                          HealthCheckURL := HealthCheckURL c;
                          reverseProxy := Some (NewSingleHostReverseProxy u);
                          mux := false |}).
Proof.
  intros Hok Hget. unfold NewFromConfig.
  destruct (initialServices_run (Server_Services yc) ∅ Hok)
    as (m & -> & Hfrom & _ & Hall).
  unfold LoadFromStorage. cbn [storage]. rewrite Hget.
  match goal with |- context [UpdateStorage ?x] =>
    pose proof (UpdateStorage_services x) as Hs;
    pose proof (UpdateStorage_opts x) as Ho;
    destruct (UpdateStorage x) as [[n2 evs2] err2] end.
  cbn in Hs, Ho. eexists _, _. split; [reflexivity|].
  split; [exact Ho|]. rewrite Hs. split; [exact Hall|].
  intros k s Hl. destruct (Hfrom k s Hl) as [Hold|H]; [|exact H].
  by rewrite lookup_empty in Hold.
Qed.

End Coverage.

(** ** The further properties on examples *)

Section CoverageExamples.

Import Sample.
Existing Instance library.

Lemma asciiToLower_empty_only (t : string) : asciiToLower t = "" -> t = "".
Proof. destruct t; [reflexivity | discriminate]. Qed.

Lemma segments_of_simple_path_witness :
  removeEmptyStr (Split "//discovery/" "/") = ["discovery"].
Proof.
  apply (segments_of_simple_path "//discovery/").
  - vm_compute. discriminate.
  - vm_compute. reflexivity.
Defined.

Lemma randomIntegerInRange_bounds_witness :
  exists v, randomIntegerInRange 25 3 10 = Done v /\ (3 <= v < 10)%Z.
Proof.
  destruct (randomIntegerInRange_bounds 25 3 10) as [Hin _].
  - split; by vm_compute.
  - split; by vm_compute.
  - apply Hin; by vm_compute.
Defined.

Lemma findServiceInMap_first_match_witness :
  findServiceInMap ["orders"] "billing/1" = "" <->
  isPathInList ["orders"] "billing/1" = false.
Proof.
  refine (proj2 (findServiceInMap_first_match ["orders"] "billing/1") _).
  intros H. apply list_elem_of_singleton in H. discriminate.
Defined.

Lemma AddService_same_key_replaces_witness :
  services (AddService (AddService (gateway ∅ "discovery") (hint "/Orders/")).1.1
              (orders UP)).1.1
  = <["orders" := orders UP]> ∅.
Proof.
  refine (proj2 (AddService_same_key_replaces (gateway ∅ "discovery")
                   (hint "/Orders/") (orders UP)) _ _ _).
  - vm_compute. discriminate.
  - vm_compute. discriminate.
  - vm_compute. reflexivity.
Defined.

Lemma AddService_then_RemoveService_witness :
  services (RemoveService (AddService (gateway {["billing" := billing]} "discovery")
                             (orders UP)).1.1 (orders UP)).1.1
  = delete "orders" {["billing" := billing]}.
Proof.
  refine (AddService_then_RemoveService
            (gateway {["billing" := billing]} "discovery") (orders UP) _ _).
  - vm_compute. reflexivity.
  - vm_compute. discriminate.
Defined.

Lemma pause_then_resume_gives_CHECKING_witness :
  exists s,
    services (gateway {["orders" := orders UP]} "discovery") !! "orders" = Some s /\
    ResumeService (gateway {["orders" := orders PAUSE]} "discovery") (hint "orders")
    = Done (set_services (<["orders" := SetStatus s CHECKING]> {["orders" := orders UP]})
              (gateway {["orders" := orders UP]} "discovery")).
Proof.
  destruct (pause_then_resume_gives_CHECKING
              (gateway {["orders" := orders UP]} "discovery")
              (gateway {["orders" := orders PAUSE]} "discovery")
              (hint "orders")) as (s & Hs & _ & Hres).
  - vm_compute. reflexivity.
  - exists s. split; [exact Hs | exact Hres].
Defined.

Lemma call_keeps_keyedByPath_witness :
  keyedByPath
    (services (AddService (gateway {["orders" := orders UP]} "discovery") billing).1.1) /\
  opts (AddService (gateway {["orders" := orders UP]} "discovery") billing).1.1
  = options "discovery".
Proof.
  refine (call_keeps_keyedByPath (options "discovery")
            (gateway {["orders" := orders UP]} "discovery") _ _ _ _).
  - intros k s Hs. cbn [gateway services] in Hs.
    apply lookup_singleton_Some in Hs as [<- <-].
    split; [vm_compute; discriminate | vm_compute; reflexivity].
  - reflexivity.
  - apply call_AddService.
Defined.

Lemma New_then_calls_keyedByPath_witness :
  services (AddService (New (options "discovery") storeWithOrders ["orders"]).1
              billing).1.1 !! "" = None.
Proof.
  destruct (New_then_calls_keyedByPath (options "discovery") storeWithOrders
              ["orders"]
              (AddService (New (options "discovery") storeWithOrders ["orders"]).1
                 billing).1.1) as (_ & _ & Hnone).
  - exact asciiToLower_empty_only.
  - eapply rtc_l; [apply call_AddService | apply rtc_refl].
  - exact Hnone.
Defined.

Lemma healthCheckTick_steady_witness :
  (healthCheckTick [("orders", true)] (gateway {["orders" := orders UP]} "discovery")).1
  = gateway {["orders" := orders UP]} "discovery".
Proof.
  refine (proj1 (healthCheckTick_steady [("orders", true)]
                   (gateway {["orders" := orders UP]} "discovery") _)).
  intros k c s Hin Hs. apply list_elem_of_singleton in Hin. injection Hin as -> ->.
  cbn [gateway services] in Hs. apply lookup_singleton_Some in Hs as [_ <-].
  right. reflexivity.
Defined.

Lemma LoadFromStorage_keeps_keys_witness :
  is_Some
    (services
       (LoadFromStorage ["orders"]
          {| services := {["billing" := billing]}; storage := storeWithOrders;
             opts := options "discovery" |}).1.1 !! "billing").
Proof.
  refine (LoadFromStorage_keeps_keys ["orders"]
            {| services := {["billing" := billing]}; storage := storeWithOrders;
               opts := options "discovery" |} "billing" _).
  exists billing. vm_compute. reflexivity.
Defined.

Lemma LoadFromStorage_without_snapshot_witness :
  LoadFromStorage [] (gateway {["orders" := orders UP]} "discovery")
  = (set_storage store0 (gateway {["orders" := orders UP]} "discovery"),
     [RedisGet svcKey], None).
Proof.
  refine (proj1 (LoadFromStorage_without_snapshot []
                   (gateway {["orders" := orders UP]} "discovery") store0
                   (Err redis_Nil) _) _).
  - vm_compute. reflexivity.
  - reflexivity.
Defined.

Lemma discovery_error_changes_nothing_witness :
  (discovery (gateway ∅ "discovery")
     (request "POST" "/discovery" "http://127.0.0.1:9002|billing||")).1.1
  = gateway ∅ "discovery".
Proof.
  refine (proj1 (discovery_error_changes_nothing (gateway ∅ "discovery")
                   (request "POST" "/discovery" "http://127.0.0.1:9002|billing||")
                   (errors_New "Discovery request health check url is not valid") _)).
  vm_compute. reflexivity.
Defined.

Lemma discovery_accepts_witness :
  (discovery (gateway ∅ "discovery") (request "POST" "/discovery" billingBody)).2
  = None.
Proof.
  refine (proj1 (discovery_accepts (gateway ∅ "discovery")
                   (request "POST" "/discovery" billingBody)
                   {| Host := "http://127.0.0.1:9002"; Path := "billing"; Status := "";
                      HealthCheckURL := "127.0.0.1:9002"; reverseProxy := None;
                      mux := false |}
                   {| URL_Host := "127.0.0.1:9002" |} _ _ _ _ _)).
  - vm_compute. reflexivity.
  - vm_compute. reflexivity.
  - vm_compute. reflexivity.
  - vm_compute. discriminate.
  - vm_compute. reflexivity.
Defined.

Lemma proxyRequest_answers_once_witness :
  gateway {["orders" := orders UP]} "discovery"
  = gateway {["orders" := orders UP]} "discovery" /\
  ([Respond StatusNotFound ""] = [Respond StatusOK ""] \/
   [Respond StatusNotFound ""] = [Respond StatusNotFound ""] \/
   (exists e, [Respond StatusNotFound ""] = [LogWarn e; Respond StatusBadGateway ""]) \/
   (exists rp out, [Respond StatusNotFound ""] = [ServeHTTP rp out])).
Proof.
  refine (proxyRequest_answers_once ["orders"]
            (gateway {["orders" := orders UP]} "discovery")
            (gateway {["orders" := orders UP]} "discovery")
            (request "GET" "/unknown/1" "") [Respond StatusNotFound ""] _ _).
  - vm_compute. discriminate.
  - vm_compute. reflexivity.
Defined.

Lemma proxyRequest_forwards_only_to_UP_witness :
  exists s u,
    services (gateway {["orders" := orders UP]} "discovery") !! "orders" = Some s /\
    Status s = UP /\ url_Parse (Host s) = Val u.
Proof.
  destruct (proxyRequest_forwards_only_to_UP ["orders"]
              (gateway {["orders" := orders UP]} "discovery")
              (gateway {["orders" := orders UP]} "discovery")
              (request "GET" "/orders/123" "")
              {| Method := "GET"; URL_Path := "/123"; RequestURI := "/123";
                 Req_Host := "127.0.0.1:9001"; Body := "" |}
              [ServeHTTP proxy9001
                 {| Method := "GET"; URL_Path := "/123"; RequestURI := "/123";
                    Req_Host := "127.0.0.1:9001"; Body := "" |}]
              proxy9001) as (s & u & Hs & Hup & Hu & _).
  - vm_compute. reflexivity.
  - apply list_elem_of_here.
  - exists s, u. split; [exact Hs|]. split; [exact Hup | exact Hu].
Defined.

Lemma registered_service_waits_for_health_check_witness :
  proxyRequest ["billing"]
    (discovery (gateway ∅ "discovery") (request "POST" "/discovery" billingBody)).1.1
    (request "GET" "/billing/1" "")
  = Done ((discovery (gateway ∅ "discovery")
             (request "POST" "/discovery" billingBody)).1.1,
          [Respond StatusNotFound ""]).
Proof.
  refine (proj1 (registered_service_waits_for_health_check (gateway ∅ "discovery")
                   (request "POST" "/discovery" billingBody)
                   (request "GET" "/billing/1" "")
                   {| Host := "http://127.0.0.1:9002"; Path := "billing"; Status := "";
                      HealthCheckURL := "127.0.0.1:9002"; reverseProxy := None;
                      mux := false |}
                   {| URL_Host := "127.0.0.1:9002" |}
                   ["billing"] [] [] "/1" _ _ _ _ _ _ _ _ _ _ _ _)).
  - vm_compute. reflexivity.
  - vm_compute. reflexivity.
  - vm_compute. reflexivity.
  - vm_compute. discriminate.
  - vm_compute. reflexivity.
  - vm_compute. discriminate.
  - vm_compute. discriminate.
  - vm_compute. discriminate.
  - vm_compute. reflexivity.
  - apply not_elem_of_nil.
  - apply not_elem_of_nil.
  - reflexivity.
Defined.

Lemma NewFromConfig_bad_host_witness :
  exists e',
    NewFromConfig
      {| Port := 8080; Server_Timeout := 10; Server_Discovery_Path := "discovery";
         Server_Services := [orders ""; unclosed] |} store0 []
    = Err e'.
Proof.
  refine (NewFromConfig_bad_host
            {| Port := 8080; Server_Timeout := 10; Server_Discovery_Path := "discovery";
               Server_Services := [orders ""; unclosed] |} store0 []
            unclosed (errors_New "missing ']' in host") _ _).
  - apply list_elem_of_further, list_elem_of_here.
  - vm_compute. reflexivity.
Defined.

Lemma NewFromConfig_seeds_registry_witness :
  exists n evs, NewFromConfig capitalConfig store0 [] = Val (n, evs, None).
Proof.
  destruct (NewFromConfig_seeds_registry capitalConfig store0 store0 [])
    as (n & evs & Hrun & _).
  - intros c Hin. cbn [capitalConfig Server_Services] in Hin.
    apply list_elem_of_singleton in Hin as ->.
    exists {| URL_Host := "127.0.0.1:9001" |}. reflexivity.
  - vm_compute. reflexivity.
  - exists n, evs. exact Hrun.
Defined.

End CoverageExamples.
